(** * Call-center simulation (CallCenterSimulation.py): model and properties

    The program is a SimPy discrete-event simulation.  The generators
    [setup], [customer] and [CallCenter.serve] are embedded as explicit
    state machines (one constructor per [yield] at which a generator can be
    suspended), the SimPy environment as its clock, its event heap and its
    event counter, and [simpy.Resource] as its [users] list and its FIFO
    [put_queue].  The Mersenne-Twister generator behind [random] is an
    interface ([RandomSource]) so that every statement holds for every
    stream of draws.

    Python floats are idealised as rationals ([Q]).  Sums, differences and
    quotients are exact here, where binary64 rounds: there a small positive
    delay can be absorbed ([now + delay] equal to [now]), a quotient can
    underflow (a rate that is not 0 with [rate / 60.0] equal to [0.0]), and
    the conversion of a very large int raises OverflowError.  The properties
    below are therefore orderings, bounds and counts that rounding
    preserves, values up to the rounding of an exact result, and, where a
    parameter matters, statements on a range of ordinary sizes on which
    nothing underflows or overflows.  The texts of the two ValueErrors are
    shortened: SimPy puts the word capacity in quotes and ends the message
    with a full stop, and appends the delay to [Negative delay]. *)

From Stdlib Require Import QArith Qround Lqa Lia.
From stdpp Require Import gmap strings list.

Local Open Scope Q_scope.

(** ** Constants of the module *)

Definition RANDOM_SEED : Z := 42.
Definition SIM_HOURS : Z := 8.
Definition MEAN_SERVICE_MINUTES : Z := 5.

(** ** Exceptions *)

Inductive exn :=
| ValueError (msg : string)
| ZeroDivisionError
| StatisticsError
| KeyError (key : string)
| RuntimeError.

(** ** Comparisons of floats, as booleans *)

Definition Qltb (x y : Q) : bool :=
  match x ?= y with Lt => true | _ => false end.

(** ** The random module

    [random.seed(a)] replaces the state of the module-wide generator by one
    that depends on [a] alone.  [random.expovariate(lambd)] is
    [-log(1.0 - random()) / lambd]: [rng_exp] stands for the numerator, with
    the state advanced by the draw. *)

Class RandomSource := {
  rng : Type;
  rng_seed : Z -> rng;
  rng_exp : rng -> Q * rng
}.

(** ** The SimPy environment *)

Inductive proc :=
| PSetup
| PCust (k : nat)
| PServe (k : nat).

(** Events that this program creates.  The waiter of an event (SimPy: the
    process whose [_target] it is) is read off the process table. *)
Inductive event :=
| EInitialize (p : proc)   (* Initialize(env, process), callbacks [process._resume] *)
| ETimeout (p : proc)      (* env.timeout(d), yielded by p on the spot *)
| ERequest (k : nat)       (* call_center.agent.request() of customer k *)
| ERelease (k : nat)       (* Release created when customer k leaves its with block *)
| EProcess (p : proc)      (* the process itself, triggered when its generator ends *)
| EUntil.                  (* the event that env.run(until=...) schedules *)

Definition URGENT : nat := 0.
Definition NORMAL : nat := 1.

(** An item of [Environment._queue]: the tuple (time, priority, eid, event). *)
Record entry := Entry {
  e_time : Q;
  e_prio : nat;
  e_eid : nat;
  e_event : event
}.

(** Python's tuple order on the first three components (eids are distinct). *)
Definition entry_ltb (a b : entry) : bool :=
  match e_time a ?= e_time b with
  | Lt => true
  | Gt => false
  | Eq => (e_prio a <? e_prio b)%nat
          || ((e_prio a =? e_prio b)%nat && (e_eid a <? e_eid b)%nat)
  end.

(** [heappop]: the least item and the remaining ones. *)
Fixpoint heappop (q : list entry) : option (entry * list entry) :=
  match q with
  | [] => None
  | e :: q' =>
      match heappop q' with
      | None => Some (e, [])
      | Some (m, r) => if entry_ltb m e then Some (m, e :: r) else Some (e, q')
      end
  end.

Record Environment := {
  now : Q;
  queue : list entry;
  eid : nat
}.

(** ** simpy.Resource and CallCenter *)

Record Resource := {
  capacity : Z;
  users : list nat;        (* granted requests, by customer *)
  put_queue : list nat     (* pending requests, oldest first *)
}.

Record CallCenter := {
  agent : Resource;
  total_busy_time : Z;
  last_event_time : Z;
  busy_times : list (Q * Q)
}.

(** ** Generators as state machines *)

Inductive setup_state :=
| SetupInit                           (* created, not yet started *)
| SetupSleeping (customer_id : nat)   (* at [yield env.timeout(inter_arrival)] *)
| SetupDone.

Inductive serve_state :=
| ServeInit
| ServeSleeping (service_time : Q)    (* at [yield self.env.timeout(service_time)] *)
| ServeDone.

Inductive customer_state :=
| CustInit
| CustQueued (arrival_time : Q)                      (* at [yield request] *)
| CustInService (arrival_time start_busy : Q) (srv : serve_state)
                                                     (* at [yield env.process(serve)] *)
| CustDeparted.

(** History of the pool, kept for stating the queueing discipline; no
    transition reads it. *)
Inductive action :=
| Requested (k : nat)
| Granted (k : nat).

Section Simulation.
Context {RS : RandomSource}.

Record world := {
  env : Environment;
  random : rng;
  call_center : CallCenter;
  wait_times : list Q;
  setup_gen : setup_state;
  customers : list customer_state;   (* customer processes, in creation order *)
  trace : list action
}.

Inductive status :=
| Running
| Stopped            (* StopSimulation reached env.run *)
| Raised (e : exn).

(** *** Field updates *)

Definition set_env (f : Environment -> Environment) (w : world) : world :=
  {| env := f (env w); random := random w; call_center := call_center w;
     wait_times := wait_times w; setup_gen := setup_gen w;
     customers := customers w; trace := trace w |}.

Definition set_random (g : rng) (w : world) : world :=
  {| env := env w; random := g; call_center := call_center w;
     wait_times := wait_times w; setup_gen := setup_gen w;
     customers := customers w; trace := trace w |}.

Definition set_agent (f : Resource -> Resource) (w : world) : world :=
  {| env := env w; random := random w;
     call_center :=
       {| agent := f (agent (call_center w));
          total_busy_time := total_busy_time (call_center w);
          last_event_time := last_event_time (call_center w);
          busy_times := busy_times (call_center w) |};
     wait_times := wait_times w; setup_gen := setup_gen w;
     customers := customers w; trace := trace w |}.

Definition add_busy_time (iv : Q * Q) (w : world) : world :=
  {| env := env w; random := random w;
     call_center :=
       {| agent := agent (call_center w);
          total_busy_time := total_busy_time (call_center w);
          last_event_time := last_event_time (call_center w);
          busy_times := busy_times (call_center w) ++ [iv] |};
     wait_times := wait_times w; setup_gen := setup_gen w;
     customers := customers w; trace := trace w |}.

Definition add_wait_time (x : Q) (w : world) : world :=
  {| env := env w; random := random w; call_center := call_center w;
     wait_times := wait_times w ++ [x]; setup_gen := setup_gen w;
     customers := customers w; trace := trace w |}.

Definition set_setup (s : setup_state) (w : world) : world :=
  {| env := env w; random := random w; call_center := call_center w;
     wait_times := wait_times w; setup_gen := s;
     customers := customers w; trace := trace w |}.

Definition set_customers (cs : list customer_state) (w : world) : world :=
  {| env := env w; random := random w; call_center := call_center w;
     wait_times := wait_times w; setup_gen := setup_gen w;
     customers := cs; trace := trace w |}.

Definition log (a : action) (w : world) : world :=
  {| env := env w; random := random w; call_center := call_center w;
     wait_times := wait_times w; setup_gen := setup_gen w;
     customers := customers w; trace := trace w ++ [a] |}.

(** *** Environment.schedule

    [heappush(self._queue, (self._now + delay, priority, next(self._eid), event))] *)
Definition schedule (ev : event) (priority : nat) (delay : Q) (w : world) : world :=
  set_env (fun e =>
    {| now := now e;
       queue := Entry (now e + delay) priority (eid e) ev :: queue e;
       eid := S (eid e) |}) w.

(** *** random.expovariate

    [-_log(1.0 - self.random()) / lambd]: the draw comes first, the division
    (and its ZeroDivisionError) second. *)
Definition expovariate (lambd : Q) (w : world) : (exn + Q) * world :=
  let (x, g) := rng_exp (random w) in
  let w := set_random g w in
  if Qeq_bool lambd 0 then (inl ZeroDivisionError, w)
  else (inr (x / lambd), w).

(** *** Timeout.__init__: [if delay < 0: raise ValueError], then
    [env.schedule(self, NORMAL, delay)] *)
Definition timeout (p : proc) (delay : Q) (w : world) : status * world :=
  if Qltb delay 0 then (Raised (ValueError "Negative delay"), w)
  else (Running, schedule (ETimeout p) NORMAL delay w).

(** *** env.process(generator): Process.__init__ schedules Initialize, URGENT *)
Definition spawn (p : proc) (w : world) : world :=
  schedule (EInitialize p) URGENT 0 w.

(** *** End of a generator: Process._resume catches StopIteration and
    schedules the process as an event *)
Definition finish (p : proc) (w : world) : world :=
  schedule (EProcess p) NORMAL 0 w.

(** *** BaseResource._trigger_put with Resource._do_put

    [_do_put] returns None, so the loop of [_trigger_put] looks at the head
    of [put_queue] only: if [len(self.users) < self.capacity] the head is
    appended to [users], succeeds (is scheduled, NORMAL, at the current
    time) and is popped; otherwise nothing changes. *)
Definition trigger_put (w : world) : world :=
  let r := agent (call_center w) in
  match put_queue r with
  | [] => w
  | k :: rest =>
      if (Z.of_nat (length (users r)) <? capacity r)%Z then
        let w := set_agent (fun r =>
                   {| capacity := capacity r; users := users r ++ [k];
                      put_queue := rest |}) w in
        log (Granted k) (schedule (ERequest k) NORMAL 0 w)
      else w
  end.

(** *** Resource.request(): Put.__init__ appends the request to [put_queue]
    and calls [_trigger_put] *)
Definition request (k : nat) (w : world) : world :=
  let w := set_agent (fun r =>
             {| capacity := capacity r; users := users r;
                put_queue := put_queue r ++ [k] |}) w in
  trigger_put (log (Requested k) w).

(** [list.remove(x)]: the first occurrence; Resource._do_get swallows the
    ValueError of an absent element. *)
Fixpoint remove_first (k : nat) (l : list nat) : list nat :=
  match l with
  | [] => []
  | x :: l' => if (x =? k)%nat then l' else x :: remove_first k l'
  end.

(** *** Request.__exit__: [cancel] does nothing on a triggered request;
    [resource.release(self)] builds a Release, whose [_do_get] removes the
    request from [users] and succeeds at once (scheduled, NORMAL, now).  The
    freed unit is handed over when that Release event is processed. *)
Definition release (k : nat) (w : world) : world :=
  let w := set_agent (fun r =>
             {| capacity := capacity r; users := remove_first k (users r);
                put_queue := put_queue r |}) w in
  schedule (ERelease k) NORMAL 0 w.

Definition set_customer (k : nat) (c : customer_state) (w : world) : world :=
  set_customers (<[k := c]> (customers w)) w.

(** *** setup *)

Definition horizon : Q := inject_Z (SIM_HOURS * 60).

(** One turn of [while env.now < SIM_HOURS * 60], from the test to the
    [yield], with [customer_id] the current value of the counter. *)
Definition setup_loop (arrival_rate_per_hour : Q) (customer_id : nat)
    (w : world) : status * world :=
  if Qltb (now (env w)) horizon then
    match expovariate (arrival_rate_per_hour / 60) w with
    | (inl e, w) => (Raised e, w)
    | (inr inter_arrival, w) =>
        match timeout PSetup inter_arrival w with
        | (Running, w) => (Running, set_setup (SetupSleeping customer_id) w)
        | r => r
        end
    end
  else (Running, finish PSetup (set_setup SetupDone w)).

(** After the [yield]: [env.process(customer(...))], [customer_id += 1],
    and the next turn. *)
Definition setup_resume (arrival_rate_per_hour : Q) (customer_id : nat)
    (w : world) : status * world :=
  let k := length (customers w) in
  let w := set_customers (customers w ++ [CustInit]) w in
  let w := spawn (PCust k) w in
  setup_loop arrival_rate_per_hour (S customer_id) w.

(** *** customer *)

(** From the start to [yield request]. *)
Definition customer_start (k : nat) (w : world) : world :=
  let arrival_time := now (env w) in
  let w := request k w in
  set_customer k (CustQueued arrival_time) w.

(** From [yield request] to [yield env.process(call_center.serve(...))]. *)
Definition customer_granted (k : nat) (arrival_time : Q) (w : world) : world :=
  let wait := now (env w) - arrival_time in
  let w := add_wait_time wait w in
  let start_busy := now (env w) in
  let w := spawn (PServe k) w in
  set_customer k (CustInService arrival_time start_busy ServeInit) w.

(** From the return of [serve] to the end of the generator. *)
Definition customer_served (k : nat) (start_busy : Q) (w : world) : world :=
  let end_busy := now (env w) in
  let w := add_busy_time (start_busy, end_busy) w in
  let w := release k w in
  finish (PCust k) (set_customer k CustDeparted w).

(** *** CallCenter.serve *)

Definition serve_start (k : nat) (arrival_time start_busy : Q) (w : world)
    : status * world :=
  match expovariate (1 / inject_Z MEAN_SERVICE_MINUTES) w with
  | (inl e, w) => (Raised e, w)
  | (inr service_time, w) =>
      match timeout (PServe k) service_time w with
      | (Running, w) =>
          (Running,
           set_customer k
             (CustInService arrival_time start_busy (ServeSleeping service_time)) w)
      | r => r
      end
  end.

Definition serve_resume (k : nat) (arrival_time start_busy : Q) (w : world) : world :=
  finish (PServe k)
    (set_customer k (CustInService arrival_time start_busy ServeDone) w).

(** *** Environment.step

    The callbacks of the popped event.  A process is resumed by an event
    when it is suspended on it; a Request has [_trigger_get] first, which
    finds [get_queue] empty (a Release leaves it in its constructor); a
    Release has [_trigger_put]; the until event has StopSimulation.callback.
    An exception that leaves a generator fails its process, and the failed
    event is raised again by [step], out of [env.run]. *)
Definition fire (arrival_rate_per_hour : Q) (ev : event) (w : world)
    : status * world :=
  match ev with
  | EInitialize PSetup =>
      match setup_gen w with
      | SetupInit => setup_loop arrival_rate_per_hour 0 w
      | _ => (Running, w)
      end
  | EInitialize (PCust k) =>
      match customers w !! k with
      | Some CustInit => (Running, customer_start k w)
      | _ => (Running, w)
      end
  | EInitialize (PServe k) =>
      match customers w !! k with
      | Some (CustInService a s ServeInit) => serve_start k a s w
      | _ => (Running, w)
      end
  | ETimeout PSetup =>
      match setup_gen w with
      | SetupSleeping customer_id => setup_resume arrival_rate_per_hour customer_id w
      | _ => (Running, w)
      end
  | ETimeout (PServe k) =>
      match customers w !! k with
      | Some (CustInService a s (ServeSleeping _)) => (Running, serve_resume k a s w)
      | _ => (Running, w)
      end
  | ETimeout (PCust _) => (Running, w)
  | ERequest k =>
      match customers w !! k with
      | Some (CustQueued a) => (Running, customer_granted k a w)
      | _ => (Running, w)
      end
  | ERelease _ => (Running, trigger_put w)
  | EProcess (PServe k) =>
      match customers w !! k with
      | Some (CustInService _ s ServeDone) => (Running, customer_served k s w)
      | _ => (Running, w)
      end
  | EProcess _ => (Running, w)
  | EUntil => (Stopped, w)
  end.

Definition step (arrival_rate_per_hour : Q) (w : world) : status * world :=
  match heappop (queue (env w)) with
  | None => (Raised RuntimeError, w)
  | Some (e, q) =>
      fire arrival_rate_per_hour (e_event e)
        (set_env (fun en => {| now := e_time e; queue := q; eid := eid en |}) w)
  end.

(** [while True: self.step()], cut after [n] steps. *)
Fixpoint exec (arrival_rate_per_hour : Q) (n : nat) (w : world) : status * world :=
  match n with
  | O => (Running, w)
  | S n =>
      match step arrival_rate_per_hour w with
      | (Running, w') => exec arrival_rate_per_hour n w'
      | r => r
      end
  end.

(** *** The body of a replication up to [env.run]

    [Environment()], [CallCenter(env, num_agents)], [wait_times = []]. *)
Definition initial_world (num_agents : Z) (g : rng) : world :=
  {| env := {| now := 0; queue := []; eid := 0 |};
     random := g;
     call_center :=
       {| agent := {| capacity := num_agents; users := []; put_queue := [] |};
          total_busy_time := 0; last_event_time := 0; busy_times := [] |};
     wait_times := [];
     setup_gen := SetupInit;
     customers := [];
     trace := [] |}.

(** [env.process(setup(...))], then the first lines of
    [env.run(until=SIM_HOURS * 60)]: the until event is scheduled URGENT
    with delay [at - self.now]. *)
Definition start_world (num_agents : Z) (g : rng) : world :=
  let w := spawn PSetup (initial_world num_agents g) in
  schedule EUntil URGENT (horizon - now (env w)) w.

End Simulation.

(** ** Metrics of a replication and the aggregation over replications *)

Inductive outcome (A : Type) :=
| Returned (a : A)
| Raise (e : exn)
| OutOfFuel.          (* the cut of [exec] was reached: not a behaviour of the program *)
Arguments Returned {A} a.
Arguments Raise {A} e.
Arguments OutOfFuel {A}.

(** Code that may raise: [exn + A], with stdpp's [x ← m; k]. *)
#[export] Instance exn_bind : MBind (sum exn) := fun A B k m =>
  match m with
  | inl e => inl e
  | inr a => k a
  end.

Definition of_result {A : Type} (m : exn + A) : outcome A :=
  match m with
  | inl e => Raise e
  | inr a => Returned a
  end.

(** [sum(xs)]: from 0, left to right. *)
Definition py_sum (xs : list Q) : Q := foldl Qplus 0 xs.

Definition py_len {A : Type} (xs : list A) : Q := inject_Z (Z.of_nat (length xs)).

(** [x / y] on numbers. *)
Definition py_div (x y : Q) : exn + Q :=
  if Qeq_bool y 0 then inl ZeroDivisionError else inr (x / y).

(** [statistics.mean]: StatisticsError on no data. *)
Definition mean (data : list Q) : exn + Q :=
  match data with
  | [] => inl StatisticsError
  | _ => inr (py_sum data / py_len data)
  end.

Definition sq_dev (mu x : Q) : Q := (x - mu) * (x - mu).

(** [statistics.pstdev]: the square root of the sum of squared deviations
    from the mean over the number of data points. *)
Definition pstdev (sqrt : Q -> Q) (data : list Q) : exn + Q :=
  match data with
  | [] => inl StatisticsError
  | _ =>
      let mu := py_sum data / py_len data in
      inr (sqrt (py_sum (map (sq_dev mu) data) / py_len data))
  end.

Section Scenario.
Context {RS : RandomSource}.
Variable sqrt : Q -> Q.      (* math.sqrt on floats *)

(** The lines under [# Compute metrics]. *)
Definition compute_avg_wait (wait_times : list Q) : exn + Q :=
  match wait_times with
  | [] => inr 0
  | _ => mean wait_times
  end.

Definition compute_total_busy_time (busy_times : list (Q * Q)) : Q :=
  py_sum (map (fun iv => snd iv - fst iv) busy_times).

Definition compute_utilization (num_agents : Z) (busy_times : list (Q * Q)) : exn + Q :=
  py_div (compute_total_busy_time busy_times) (inject_Z (num_agents * SIM_HOURS * 60)).

Definition compute_avg_queue_len (wait_times : list Q) : exn + Q :=
  match wait_times with
  | [] => inr 0
  | _ => py_div (py_sum wait_times) (inject_Z SIM_HOURS)
  end.

Definition metrics (num_agents : Z) (w : world) : exn + gmap string Q :=
  avg_wait ← compute_avg_wait (wait_times w);
  let num_served := py_len (wait_times w) in
  utilization ← compute_utilization num_agents (busy_times (call_center w));
  avg_queue_len ← compute_avg_queue_len (wait_times w);
  inr (<["avg_wait" := avg_wait]>
       (<["utilization" := utilization]>
        (<["num_served" := num_served]>
         (<["avg_queue_len" := avg_queue_len]> ∅)))).

(** One turn of [for r in range(replications)], up to the dictionary that is
    appended to [all_results].  The incoming state [g] of the module-wide
    generator is replaced by [random.seed(RANDOM_SEED + r)];
    [simpy.Resource] raises ValueError unless [capacity > 0]. *)
Definition replication (fuel : nat) (num_agents : Z) (arrival_rate_per_hour : Q)
    (r : nat) (g : rng) : outcome (gmap string Q) * rng :=
  let g := rng_seed (RANDOM_SEED + Z.of_nat r) in
  if (num_agents <=? 0)%Z then (Raise (ValueError "capacity must be > 0"), g)
  else
    match exec arrival_rate_per_hour fuel (start_world num_agents g) with
    | (Stopped, w) => (of_result (metrics num_agents w), random w)
    | (Raised e, w) => (Raise e, random w)
    | (Running, w) => (OutOfFuel, random w)
    end.

Fixpoint replications_loop (fuel : nat) (num_agents : Z) (arrival_rate_per_hour : Q)
    (rs : list nat) (all_results : list (gmap string Q)) (g : rng)
    : outcome (list (gmap string Q)) * rng :=
  match rs with
  | [] => (Returned all_results, g)
  | r :: rs =>
      match replication fuel num_agents arrival_rate_per_hour r g with
      | (Returned res, g) =>
          replications_loop fuel num_agents arrival_rate_per_hour rs
            (all_results ++ [res]) g
      | (Raise e, g) => (Raise e, g)
      | (OutOfFuel, g) => (OutOfFuel, g)
      end
  end.

(** [[res[key] for res in all_results]] *)
Fixpoint column (key : string) (all_results : list (gmap string Q)) : exn + list Q :=
  match all_results with
  | [] => inr []
  | res :: rest =>
      match res !! key with
      | None => inl (KeyError key)
      | Some v => vals ← column key rest; inr (v :: vals)
      end
  end.

Definition metric_keys : list string :=
  ["avg_wait"; "utilization"; "num_served"; "avg_queue_len"].

(** The loop under [# Aggregate results]. *)
Fixpoint aggregate (keys : list string) (all_results : list (gmap string Q))
    (agg : gmap string Q) : exn + gmap string Q :=
  match keys with
  | [] => inr agg
  | key :: keys =>
      vals ← column key all_results;
      m ← mean vals;
      let agg := <[key +:+ "_mean" := m]> agg in
      sd ← pstdev sqrt vals;
      let agg := <[key +:+ "_stdev" := sd]> agg in
      aggregate keys all_results agg
  end.

Definition run_scenario (fuel : nat) (num_agents : Z) (arrival_rate_per_hour : Q)
    (replications : nat) (g : rng) : outcome (gmap string Q) * rng :=
  match replications_loop fuel num_agents arrival_rate_per_hour
          (seq 0 replications) [] g with
  | (Returned all_results, g) => (of_result (aggregate metric_keys all_results ∅), g)
  | (Raise e, g) => (Raise e, g)
  | (OutOfFuel, g) => (OutOfFuel, g)
  end.

(** [replications=30] *)
Definition default_replications : nat := 30.

End Scenario.

(** ** Streams of draws used in the examples *)

(** The draw is a function of the seed and of the number of draws since
    seeding. *)
Definition table_source (draw : Z -> nat -> Q) : RandomSource :=
  {| rng := Z * nat;
     rng_seed := fun a => (a, O);
     rng_exp := fun g => (draw (fst g) (snd g), (fst g, S (snd g))) |}.

(** Every draw is 60: at 10 calls per hour a call every 360 minutes, and
    300 minutes of service. *)
Definition slow_source : RandomSource := table_source (fun _ _ => 60).

(** At 10 calls per hour: calls at minutes 60, 180 and 204, the next one
    past the horizon; services of 10, 40 and 300 minutes.  With one agent
    the third caller waits from 204 to 220 and is in service at 480. *)
Definition busy_draw (a : Z) (i : nat) : Q :=
  match i with
  | 0%nat => 10 | 1%nat => 20 | 2%nat => 2 | 3%nat => 4 | 4%nat => 8
  | _ => 60
  end.
Definition busy_source : RandomSource := table_source busy_draw.

(** A call at minute 60 whose service draw is 0. *)
Definition instant_draw (a : Z) (i : nat) : Q :=
  match i with
  | 0%nat => 10 | 2%nat => 0
  | _ => 60
  end.
Definition instant_source : RandomSource := table_source instant_draw.

(** The draws of [busy_source], each one longer by the distance of the seed
    from [RANDOM_SEED]: the replications of a scenario differ. *)
Definition varied_draw (a : Z) (i : nat) : Q :=
  busy_draw a i + inject_Z (a - RANDOM_SEED).
Definition varied_source : RandomSource := table_source varied_draw.

(** A square root on the rationals: the root of the numerator over the root
    of the denominator of the reduced fraction, which is the exact root
    whenever the argument is the square of a rational. *)
Definition Qsqrt (x : Q) : Q :=
  let r := Qred x in Z.sqrt (Qnum r) # Pos.sqrt (Qden r).

(** ** Predicates on the state of a replication *)

Section Invariants.
Context {RS : RandomSource}.

(** No pending event lies in the past. *)
Definition clock_inv (w : world) : Prop :=
  forall e, e ∈ queue (env w) -> now (env w) <= e_time e.

Definition pool_bounded (w : world) : Prop :=
  (Z.of_nat (length (users (agent (call_center w))))
   <= capacity (agent (call_center w)))%Z.

Definition unused_fields (w : world) : Prop :=
  total_busy_time (call_center w) = 0%Z /\ last_event_time (call_center w) = 0%Z.

(** The counter of [setup] is the number of customer processes created. *)
Definition customer_ids_inv (w : world) : Prop :=
  match setup_gen w with
  | SetupInit => customers w = []
  | SetupSleeping c => c = length (customers w)
  | SetupDone => True
  end.

Definition until_inv (w : world) : Prop :=
  forall e, e ∈ queue (env w) -> e_event e = EUntil -> e_time e == horizon.

(** The order of the grants and of the requests in the history. *)
Definition grants (tr : list action) : list nat :=
  omap (fun a => match a with Granted k => Some k | _ => None end) tr.
Definition requests (tr : list action) : list nat :=
  omap (fun a => match a with Requested k => Some k | _ => None end) tr.

Definition fifo_inv (w : world) : Prop :=
  grants (trace w) ++ put_queue (agent (call_center w)) = requests (trace w).

(** Customers by state: [started] have been granted an agent and recorded
    their wait, [departed] have released it and recorded their interval. *)
Definition started (c : customer_state) : bool :=
  match c with
  | CustInService _ _ _ | CustDeparted => true
  | _ => false
  end.

Definition in_service (c : customer_state) : bool :=
  match c with
  | CustInService _ _ _ => true
  | _ => false
  end.

Definition departed (c : customer_state) : bool :=
  match c with
  | CustDeparted => true
  | _ => false
  end.

Definition count (f : customer_state -> bool) (cs : list customer_state) : nat :=
  length (List.filter f cs).

Definition count_inv (w : world) : Prop :=
  length (wait_times w) = count started (customers w)
  /\ length (busy_times (call_center w)) = count departed (customers w).

Definition cust_times_ok (t : Q) (c : customer_state) : Prop :=
  match c with
  | CustQueued a => a <= t
  | CustInService _ s _ => s <= t
  | _ => True
  end.

Definition times_inv (w : world) : Prop :=
  Forall (cust_times_ok (now (env w))) (customers w)
  /\ Forall (fun x => 0 <= x) (wait_times w)
  /\ Forall (fun iv => fst iv <= snd iv) (busy_times (call_center w)).

Definition is_release (e : entry) : bool :=
  match e_event e with
  | ERelease _ => true
  | _ => false
  end.

Definition pending_releases (q : list entry) : nat :=
  length (List.filter is_release q).

(** Between [release] and the processing of the Release event the pool has
    a free unit while requests may wait; the Release is then pending at the
    current time. *)
Definition handover_inv (w : world) : Prop :=
  (forall e, e ∈ queue (env w) -> is_release e = true -> e_time e <= now (env w))
  /\ (put_queue (agent (call_center w)) <> [] ->
      (capacity (agent (call_center w))
       <= Z.of_nat (length (users (agent (call_center w)))
                    + pending_releases (queue (env w))))%Z).

End Invariants.

(** ** Statements that the properties below compare the program with *)

Section Statements.
Context {RS : RandomSource}.

(** Every run that stops has no customer left in service and no event left
    pending. *)
Definition runs_to_completion (rate : Q) (w0 : world) : Prop :=
  forall n w, exec rate n w0 = (Stopped, w) ->
    queue (env w) = [] /\ count in_service (customers w) = 0%nat.

(** [num_served] is the number of customers that have departed. *)
Definition served_are_departed (fuel : nat) (num_agents : Z) (rate : Q) (r : nat) : Prop :=
  forall g res g' w,
    replication fuel num_agents rate r g = (Returned res, g') ->
    exec rate fuel (start_world num_agents (rng_seed (RANDOM_SEED + Z.of_nat r)))
      = (Stopped, w) ->
    res !! "num_served" = Some (inject_Z (Z.of_nat (count departed (customers w)))).

(** Requests wait only while every unit of the pool is in use. *)
Definition waits_only_when_full (rate : Q) (w0 : world) : Prop :=
  forall n,
    let pool := agent (call_center (exec rate n w0).2) in
    put_queue pool <> [] -> Z.of_nat (length (users pool)) = capacity pool.

(** Recorded waits are not negative and recorded busy intervals have a
    positive length. *)
Definition recorded_times_strict (rate : Q) (w0 : world) : Prop :=
  forall n,
    Forall (fun x => 0 <= x) (wait_times (exec rate n w0).2)
    /\ Forall (fun iv => fst iv < snd iv) (busy_times (call_center (exec rate n w0).2)).

End Statements.

(** Bad parameters are refused before any replication starts: the call
    raises and the module-wide generator is as the caller left it (no
    [random.seed] has run). *)
Definition rejects_bad_parameters `{RandomSource} (sqrt : Q -> Q) : Prop :=
  forall fuel num_agents rate replications g,
    (num_agents <= 0)%Z \/ rate <= 0 ->
    exists e, run_scenario sqrt fuel num_agents rate replications g = (Raise e, g).

(** ** The quantities that the specification names

    Written from the words of the specification, not from the code: the sum
    of a list of numbers, its arithmetic mean, and its population variance
    (the mean of the squared deviations from the mean, with divisor [N]). *)

Fixpoint sum_of (xs : list Q) : Q :=
  match xs with
  | [] => 0
  | x :: xs => x + sum_of xs
  end.

Definition arithmetic_mean (xs : list Q) : Q :=
  sum_of xs / inject_Z (Z.of_nat (length xs)).


(** ** The until event *)

Section UntilPending.
Context {RS : RandomSource}.

Definition until_pending (w : world) : Prop :=
  exists e, e ∈ queue (env w) /\ e_event e = EUntil.

End UntilPending.

(** ** Further predicates on the state of a replication *)

Section MoreInvariants.
Context {RS : RandomSource}.

Definition is_request (e : entry) : bool :=
  match e_event e with
  | ERequest _ => true
  | _ => false
  end.

Definition pending_requests (q : list entry) : nat :=
  length (List.filter is_request q).

(** Customers in service, and granted requests whose customer has not been
    resumed yet, hold a unit of the pool. *)
Definition holders_inv (w : world) : Prop :=
  (count in_service (customers w) + pending_requests (queue (env w))
   <= length (users (agent (call_center w))))%nat.

(** Time that a customer has spent in service up to [t], if it is in
    service. *)
Definition in_service_time (t : Q) (c : customer_state) : Q :=
  match c with
  | CustInService _ s _ => t - s
  | _ => 0
  end.

Definition service_sum (t : Q) (cs : list customer_state) : Q :=
  foldr (fun c acc => in_service_time t c + acc) 0 cs.

(** Agent-minutes used so far, completed or not, against agent-minutes
    available so far. *)
Definition busy_inv (w : world) : Prop :=
  compute_total_busy_time (busy_times (call_center w))
  + service_sum (now (env w)) (customers w)
  <= inject_Z (capacity (agent (call_center w))) * now (env w).

(** The until event is the item (horizon, URGENT, 1); every other pending
    item is due before the horizon or sorts after it. *)
Definition until_entry (e : entry) : Prop :=
  e_time e == horizon /\ e_prio e = URGENT /\ e_eid e = 1%nat /\ e_event e = EUntil.

Definition boundary_inv (w : world) : Prop :=
  (2 <= eid (env w))%nat
  /\ forall e, e ∈ queue (env w) ->
       until_entry e
       \/ (e_event e <> EUntil
           /\ (e_time e < horizon
               \/ (horizon <= e_time e /\ (1 < e_eid e)%nat))).

(** What holds of a run that is still going. *)
Definition arrival_ok (c : customer_state) : Prop :=
  match c with
  | CustQueued a => 0 <= a
  | _ => True
  end.

Definition before_horizon (w : world) : Prop :=
  until_pending w /\ boundary_inv w /\ clock_inv w /\ until_inv w
  /\ 0 <= now (env w) /\ now (env w) < horizon
  /\ Forall arrival_ok (customers w)
  /\ Forall (fun x => x < horizon) (wait_times w)
  /\ Forall (fun iv => snd iv < horizon) (busy_times (call_center w)).

Definition utilization_inv (w : world) : Prop :=
  clock_inv w /\ times_inv w /\ pool_bounded w /\ holders_inv w /\ busy_inv w.

End MoreInvariants.


(** The keys of the dictionary that [run_scenario] returns. *)
Definition aggregate_keys : list string :=
  ["avg_wait_mean"; "avg_wait_stdev"; "utilization_mean"; "utilization_stdev";
   "num_served_mean"; "num_served_stdev"; "avg_queue_len_mean";
   "avg_queue_len_stdev"].

(** A stream whose draws are negative. *)
Definition negative_source : RandomSource := table_source (fun _ _ => -1).

(** ** The entry point

    The block under [if __name__ == "__main__"].  A dictionary is iterated
    in insertion order; of the five [print] calls of a turn the values that
    they format are kept (in the order in which they are read), not the
    formatted text; a turn in which a lookup raises is not among the
    reports, although its first lines would have been printed. *)

Definition scenarios : list (string * (Z * Q)) :=
  [("Baseline (5 agents, 10/hr)", (5%Z, 10));
   ("More Agents (7 agents, 10/hr)", (7%Z, 10));
   ("Higher Load (5 agents, 12/hr)", (5%Z, 12))].

Record report := {
  r_name : string;
  r_avg_wait : Q;
  r_avg_wait_stdev : Q;
  r_utilization : Q;
  r_num_served : Q;
  r_avg_queue_len : Q
}.

(** [d[key]] *)
Definition getitem (d : gmap string Q) (key : string) : exn + Q :=
  match d !! key with
  | Some v => inr v
  | None => inl (KeyError key)
  end.

Definition print_report (name : string) (result : gmap string Q) : exn + report :=
  avg_wait ← getitem result "avg_wait_mean";
  avg_wait_stdev ← getitem result "avg_wait_stdev";
  utilization ← getitem result "utilization_mean";
  num_served ← getitem result "num_served_mean";
  avg_queue_len ← getitem result "avg_queue_len_mean";
  inr {| r_name := name; r_avg_wait := avg_wait; r_avg_wait_stdev := avg_wait_stdev;
         r_utilization := utilization; r_num_served := num_served;
         r_avg_queue_len := avg_queue_len |}.

Section Main.
Context {RS : RandomSource}.
Variable sqrt : Q -> Q.

(** [for name, (agents, rate) in scenarios.items()]: what has been printed
    so far, how the loop ended, and the state of the generator. *)
Fixpoint main_loop (fuel : nat) (todo : list (string * (Z * Q))) (printed : list report)
    (g : rng) : list report * outcome unit * rng :=
  match todo with
  | [] => (printed, Returned tt, g)
  | (name, (agents, rate)) :: todo =>
      match run_scenario sqrt fuel agents rate default_replications g with
      | (Returned result, g) =>
          match print_report name result with
          | inr rep => main_loop fuel todo (printed ++ [rep]) g
          | inl e => (printed, Raise e, g)
          end
      | (Raise e, g) => (printed, Raise e, g)
      | (OutOfFuel, g) => (printed, OutOfFuel, g)
      end
  end.

Definition main (fuel : nat) (g : rng) : list report * outcome unit * rng :=
  main_loop fuel scenarios [] g.

(** What [main] prints for a scenario is read from the aggregate of that
    scenario. *)
Definition reported (fuel : nat) (sc : string * (Z * Q)) (rep : report) : Prop :=
  exists agg g0 g1,
    run_scenario sqrt fuel sc.2.1 sc.2.2 default_replications g0 = (Returned agg, g1)
    /\ r_name rep = sc.1
    /\ agg !! "avg_wait_mean" = Some (r_avg_wait rep)
    /\ agg !! "avg_wait_stdev" = Some (r_avg_wait_stdev rep)
    /\ agg !! "utilization_mean" = Some (r_utilization rep)
    /\ agg !! "num_served_mean" = Some (r_num_served rep)
    /\ agg !! "avg_queue_len_mean" = Some (r_avg_queue_len rep).

End Main.

(** * Properties *)

Lemma Qltb_true x y : Qltb x y = true <-> x < y.
Proof.
  unfold Qltb. rewrite Qlt_alt. destruct (x ?= y); split; congruence.
Qed.

Lemma Qltb_false x y : Qltb x y = false <-> y <= x.
Proof.
  unfold Qltb. rewrite Qle_alt, <- (Qcompare_antisym y x).
  destruct (y ?= x); simpl; split; congruence.
Qed.

Lemma entry_ltb_time a b : entry_ltb a b = true -> e_time a <= e_time b.
Proof.
  unfold entry_ltb. destruct (e_time a ?= e_time b) eqn:Hc; intros H.
  - apply Qeq_alt in Hc. rewrite Hc. apply Qle_refl.
  - apply Qlt_alt in Hc. apply Qlt_le_weak. exact Hc.
  - discriminate.
Qed.

Lemma entry_ltb_false_time a b : entry_ltb a b = false -> e_time b <= e_time a.
Proof.
  unfold entry_ltb. destruct (e_time a ?= e_time b) eqn:Hc; intros H.
  - apply Qeq_alt in Hc. rewrite Hc. apply Qle_refl.
  - discriminate.
  - apply Qgt_alt in Hc. apply Qlt_le_weak. exact Hc.
Qed.

Lemma heappop_perm q m r : heappop q = Some (m, r) -> q ≡ₚ m :: r.
Proof.
  revert m r. induction q as [|e q IH]; intros m r H; simpl in H; [discriminate|].
  destruct (heappop q) as [[m' r']|] eqn:Hq.
  - specialize (IH _ _ eq_refl).
    destruct (entry_ltb m' e); simplify_eq.
    + rewrite IH. apply perm_swap.
    + reflexivity.
  - simplify_eq. destruct q; [reflexivity|].
    simpl in Hq. repeat case_match; discriminate.
Qed.

Lemma heappop_min q m r x : heappop q = Some (m, r) -> x ∈ r -> e_time m <= e_time x.
Proof.
  revert m r x. induction q as [|e q IH]; intros m r x H Hx; simpl in H; [discriminate|].
  destruct (heappop q) as [[m' r']|] eqn:Hq.
  - destruct (entry_ltb m' e) eqn:Hlt; simplify_eq.
    + apply elem_of_cons in Hx as [->|Hx].
      * apply entry_ltb_time. exact Hlt.
      * eapply IH; eauto.
    + apply entry_ltb_false_time in Hlt.
      rewrite (heappop_perm _ _ _ Hq) in Hx.
      apply elem_of_cons in Hx as [->|Hx]; [exact Hlt|].
      eapply Qle_trans; [exact Hlt|]. eapply IH; eauto.
  - simplify_eq. inversion Hx.
Qed.

Lemma heappop_elem q m r x : heappop q = Some (m, r) -> x ∈ q <-> x = m \/ x ∈ r.
Proof.
  intros H. rewrite (heappop_perm _ _ _ H). apply elem_of_cons.
Qed.

Lemma heappop_releases q m r :
  heappop q = Some (m, r) ->
  pending_releases q = ((if is_release m then 1 else 0) + pending_releases r)%nat.
Proof.
  unfold pending_releases.
  revert m r. induction q as [|e q IH]; intros m r H; simpl in H; [discriminate|].
  destruct (heappop q) as [[m' r']|] eqn:Hq.
  - specialize (IH _ _ eq_refl).
    destruct (entry_ltb m' e); simplify_eq; simpl.
    + destruct (is_release e), (is_release m); simpl in *; lia.
    + destruct (is_release m); simpl; lia.
  - simplify_eq. destruct q; [|simpl in Hq; repeat case_match; discriminate].
    simpl. destruct (is_release m); reflexivity.
Qed.

(** ** Tactics *)

(** Case analysis on one [step]: the popped event, the state of the
    process it resumes, and the branches taken. *)
Ltac step_cases H :=
  unfold step, fire, setup_resume, setup_loop, serve_start, timeout, expovariate in H;
  repeat case_match; simplify_eq;
  unfold customer_start, customer_granted, customer_served, serve_resume,
    request, release, trigger_put, finish, spawn, schedule, set_customer;
  repeat case_match; simplify_eq; simpl in *.

Ltac Qhyps :=
  repeat match goal with
  | H : Qltb _ _ = true |- _ => apply Qltb_true in H
  | H : Qltb _ _ = false |- _ => apply Qltb_false in H
  end.

(** ** Invariants of [step] *)

Section Proofs.
Context {RS : RandomSource}.

Lemma exec_invariant (P : world -> Prop) rate :
  (forall w st w', P w -> step rate w = (st, w') -> P w') ->
  forall n w, P w -> P (exec rate n w).2.
Proof.
  intros Hstep n. induction n as [|n IH]; intros w Hw; simpl; [exact Hw|].
  destruct (step rate w) as [st w'] eqn:Hs.
  pose proof (Hstep _ _ _ Hw Hs) as Hw'.
  destruct st; simpl; auto.
Qed.

Lemma step_clock rate w st w' : clock_inv w -> step rate w = (st, w') -> clock_inv w'.
Proof.
  intros Hw H. step_cases H; Qhyps; unfold clock_inv in *; simpl;
    try (exact Hw);
    intros x Hx; rewrite ?elem_of_cons in Hx; destruct_or?; subst; simpl;
    try (eapply heappop_min; eassumption).
  all: lra.
Qed.

(** The clock never goes back. *)
Lemma step_now_mono rate w st w' :
  clock_inv w -> step rate w = (st, w') -> now (env w) <= now (env w').
Proof.
  intros Hw H.
  assert (forall m r, heappop (queue (env w)) = Some (m, r) -> now (env w) <= e_time m) as Hm.
  { intros m r Hp. apply Hw. apply (heappop_elem _ _ _ m Hp). left. reflexivity. }
  step_cases H; simpl; try apply Qle_refl; eapply Hm; reflexivity.
Qed.

Lemma remove_first_length k l :
  (length (remove_first k l) <= length l <= S (length (remove_first k l)))%nat.
Proof.
  induction l as [|x l IH]; simpl; [lia|].
  destruct (x =? k)%nat; simpl; lia.
Qed.

Lemma step_pool_bounded rate w st w' :
  pool_bounded w -> step rate w = (st, w') -> pool_bounded w'.
Proof.
  intros Hw H. step_cases H; unfold pool_bounded in *; simpl; try exact Hw.
  all: rewrite ?length_app; simpl.
  all: try match goal with
       | |- context [remove_first ?k ?l] => pose proof (remove_first_length k l)
       end.
  all: lia.
Qed.

Lemma step_capacity rate w st w' :
  step rate w = (st, w') ->
  capacity (agent (call_center w')) = capacity (agent (call_center w)).
Proof. intros H. step_cases H; reflexivity. Qed.

Lemma step_unused rate w st w' :
  unused_fields w -> step rate w = (st, w') -> unused_fields w'.
Proof. intros Hw H. step_cases H; exact Hw. Qed.

(** The counter of [setup] is the number of customer processes created so
    far: the customer at position [k] of the process table was created with
    [customer_id = k]. *)
Lemma step_customer_id rate w w' :
  customer_ids_inv w -> step rate w = (Running, w') -> customer_ids_inv w'.
Proof.
  intros Hw H. step_cases H; unfold customer_ids_inv in *; simpl in *;
    try (destruct (setup_gen w) eqn:Hg; simplify_eq);
    rewrite ?length_insert, ?length_app; simpl; auto; try lia;
    try (rewrite Hw; reflexivity).
Qed.

Lemma step_until rate w st w' : until_inv w -> step rate w = (st, w') -> until_inv w'.
Proof.
  intros Hw H.
  step_cases H; unfold until_inv in *; simpl; try (exact Hw);
    intros x Hx; rewrite ?elem_of_cons in Hx; destruct_or?; subst; simpl;
    try discriminate;
    (apply Hw; eapply heappop_elem; [eassumption | right; assumption]).
Qed.

Lemma step_stopped rate w w' :
  clock_inv w -> until_inv w -> step rate w = (Stopped, w') ->
  now (env w') == horizon /\ forall e, e ∈ queue (env w') -> horizon <= e_time e.
Proof.
  intros Hc Hu H. step_cases H.
  match goal with
  | Hp : heappop _ = Some (?m, _), He : e_event ?m = EUntil |- _ =>
      assert (e_time m == horizon) as Ht
        by (apply Hu; [apply (heappop_elem _ _ _ m Hp); left; reflexivity | exact He]);
      split; [exact Ht|];
      intros x Hx; rewrite <- Ht; eapply heappop_min; eassumption
  end.
Qed.

(** *** The queueing discipline *)

Lemma grants_snoc tr a :
  grants (tr ++ [a]) = grants tr ++ match a with Granted k => [k] | _ => [] end.
Proof. unfold grants. rewrite omap_app. destruct a; reflexivity. Qed.

Lemma requests_snoc tr a :
  requests (tr ++ [a]) = requests tr ++ match a with Requested k => [k] | _ => [] end.
Proof. unfold requests. rewrite omap_app. destruct a; reflexivity. Qed.

Lemma trigger_put_fifo w : fifo_inv w -> fifo_inv (trigger_put w).
Proof.
  unfold fifo_inv, trigger_put. intros H.
  destruct (put_queue (agent (call_center w))) as [|k rest] eqn:Hq; [ congruence | ].
  destruct (Z.of_nat _ <? _)%Z; [ | congruence ].
  simpl. rewrite grants_snoc, requests_snoc, app_nil_r, <- app_assoc. exact H.
Qed.

Lemma request_fifo k w : fifo_inv w -> fifo_inv (request k w).
Proof.
  intros H. unfold request. apply trigger_put_fifo.
  unfold fifo_inv in *. simpl.
  rewrite grants_snoc, requests_snoc, app_nil_r, app_assoc, H. reflexivity.
Qed.

Lemma step_fifo rate w st w' : fifo_inv w -> step rate w = (st, w') -> fifo_inv w'.
Proof.
  intros Hw H.
  unfold step, fire, setup_resume, setup_loop, serve_start, timeout, expovariate in H;
    repeat case_match; simplify_eq; try exact Hw.
  - exact (request_fifo k (set_env _ w) Hw).
  - exact (trigger_put_fifo (set_env _ w) Hw).
Qed.

(** *** Counting customers by state *)

Lemma count_snoc f cs c :
  count f (cs ++ [c]) = (count f cs + if f c then 1 else 0)%nat.
Proof.
  unfold count. rewrite List.filter_app, length_app. simpl.
  destruct (f c); reflexivity.
Qed.

Lemma count_insert f cs k c c' :
  cs !! k = Some c ->
  (count f (<[k:=c']> cs) + (if f c then 1 else 0)
   = count f cs + (if f c' then 1 else 0))%nat.
Proof.
  unfold count. revert k. induction cs as [|x cs IH]; intros k Hk; [discriminate|].
  destruct k as [|k]; simpl in *.
  - simplify_eq. destruct (f c), (f c'); simpl; lia.
  - specialize (IH _ Hk). destruct (f x); simpl; lia.
Qed.

Lemma step_count rate w st w' : count_inv w -> step rate w = (st, w') -> count_inv w'.
Proof.
  intros [Hw Hb] H. step_cases H; unfold count_inv; simpl;
    rewrite ?length_app, ?count_snoc; simpl.
  all: try (split; [exact Hw | exact Hb]).
  all: split.
  all: try match goal with
       | Hk : customers _ !! ?k = Some ?c |- context [count ?f (<[?k:=?c']> _)] =>
           pose proof (count_insert f _ k c c' Hk) as Hci; simpl in Hci
       end.
  all: lia.
Qed.

(** *** Times recorded by the customers *)

Lemma cust_times_mono t t' c : t <= t' -> cust_times_ok t c -> cust_times_ok t' c.
Proof. intros Ht. destruct c; simpl; auto; intros; lra. Qed.

Lemma step_times rate w st w' :
  clock_inv w -> times_inv w -> step rate w = (st, w') -> times_inv w'.
Proof.
  intros Hc (Hcs & Hwt & Hbt) H.
  assert (forall m r, heappop (queue (env w)) = Some (m, r) ->
            Forall (cust_times_ok (e_time m)) (customers w)) as Hpop.
  { intros m r Hp. eapply Forall_impl; [exact Hcs|].
    intros c. apply cust_times_mono. apply Hc.
    apply (heappop_elem _ _ _ m Hp). left. reflexivity. }
  unfold step in H. destruct (heappop (queue (env w))) as [[m r]|] eqn:Hp;
    [ specialize (Hpop _ _ eq_refl) | simplify_eq; repeat split; assumption ].
  assert (forall k c, customers w !! k = Some c -> cust_times_ok (e_time m) c) as Hk.
  { intros k c. apply Forall_lookup_1. exact Hpop. }
  unfold fire, setup_resume, setup_loop, serve_start, timeout, expovariate in H;
  repeat case_match; simplify_eq;
  unfold customer_start, customer_granted, customer_served, serve_resume,
    request, release, trigger_put, finish, spawn, schedule, set_customer;
  repeat case_match; simplify_eq; simpl in *.
  all: unfold times_inv; simpl; repeat split; try assumption.
  all: repeat match goal with
       | Hl : customers _ !! _ = Some _ |- _ => apply Hk in Hl; simpl in Hl
       end.
  all: repeat first [ apply Forall_insert | apply Forall_app_2
                    | apply Forall_cons_2 | apply Forall_nil_2 ];
       try assumption; simpl; try exact I; try lra.
Qed.

(** *** Hand-over of a freed unit *)

Lemma step_handover rate w st w' :
  clock_inv w -> handover_inv w -> step rate w = (st, w') -> handover_inv w'.
Proof.
  intros Hc [Ht Hq] H.
  unfold step in H. destruct (heappop (queue (env w))) as [[m r]|] eqn:Hp;
    [ | simplify_eq; split; assumption ].
  assert (now (env w) <= e_time m) as Hm.
  { apply Hc. apply (heappop_elem _ _ _ m Hp). left. reflexivity. }
  assert (forall x, x ∈ r -> is_release x = true -> e_time x <= e_time m) as Hr.
  { intros x Hx Hrel. eapply Qle_trans; [|exact Hm].
    apply Ht; [|exact Hrel]. apply (heappop_elem _ _ _ x Hp). right. exact Hx. }
  pose proof (heappop_releases _ _ _ Hp) as Hn. rewrite Hn in Hq. clear Hn.
  unfold is_release in Hq at 1.
  unfold fire, setup_resume, setup_loop, serve_start, timeout, expovariate in H;
  repeat case_match; simplify_eq;
  unfold customer_start, customer_granted, customer_served, serve_resume,
    request, release, trigger_put, finish, spawn, schedule, set_customer;
  repeat case_match; simplify_eq; simpl in *.
  all: repeat match goal with
       | H : ?l ++ [_] = [] |- _ => destruct l; discriminate H
       | H : ?l ++ [_] = _ :: _ |- _ =>
           let E := fresh "E" in destruct l eqn:E; simpl in H; simplify_eq
       end.
  all: unfold handover_inv; simpl; split.
  all: try (intros x Hx; rewrite ?elem_of_cons in Hx; destruct_or?; subst; simpl;
            try discriminate; first [ apply Hr; assumption | intros; lra ]).
  all: intros Hne; try (exfalso; apply Hne; reflexivity).
  all: unfold pending_releases in *; simpl in *; rewrite ?length_app; simpl.
  all: repeat match goal with
       | H : (_ <? _)%Z = true |- _ => apply Z.ltb_lt in H
       | H : (_ <? _)%Z = false |- _ => apply Z.ltb_ge in H
       end.
  all: try match goal with
       | |- context [remove_first ?k ?l] => pose proof (remove_first_length k l)
       end.
  all: try congruence.
  all: try (specialize (Hq ltac:(first [ assumption | discriminate | congruence ]))).
  all: lia.
Qed.

End Proofs.

(** ** Runs *)

Section Runs.
Context {RS : RandomSource}.

Lemma exec_stopped (P : world -> Prop) (Q : world -> Prop) rate :
  (forall w st w', P w -> step rate w = (st, w') -> P w') ->
  (forall w w', P w -> step rate w = (Stopped, w') -> Q w') ->
  forall n w w', P w -> exec rate n w = (Stopped, w') -> Q w'.
Proof.
  intros Hstep Hstop n. induction n as [|n IH]; intros w w' Hw H; simpl in H;
    [discriminate|].
  destruct (step rate w) as [st w1] eqn:Hs.
  destruct st; simplify_eq.
  - eapply IH; [|eassumption]. eapply Hstep; eassumption.
  - eapply Hstop; eassumption.
Qed.

Lemma exec_final rate n m w st w' :
  exec rate n w = (st, w') -> st <> Running -> exec rate (n + m) w = (st, w').
Proof.
  revert w. induction n as [|n IH]; intros w H Hst; simpl in *.
  - by simplify_eq.
  - destruct (step rate w) as [st1 w1]. destruct st1; auto.
Qed.

Lemma start_clock num_agents g : clock_inv (start_world num_agents g).
Proof.
  intros e He. simpl in He. rewrite !elem_of_cons in He.
  destruct He as [->|[->|He]]; [ | | inversion He ]; vm_compute; discriminate.
Qed.

Lemma start_until num_agents g : until_inv (start_world num_agents g).
Proof.
  intros e He. simpl in He. rewrite !elem_of_cons in He.
  destruct He as [->|[->|He]]; simpl; [ | discriminate | inversion He ].
  intros _. vm_compute. reflexivity.
Qed.

Lemma start_times num_agents g : times_inv (start_world num_agents g).
Proof. repeat split; simpl; constructor. Qed.

Lemma start_handover num_agents g : handover_inv (start_world num_agents g).
Proof.
  split; simpl.
  - intros e He. rewrite !elem_of_cons in He.
    destruct He as [->|[->|He]]; simpl; [ discriminate.. | inversion He ].
  - intros Hne. exfalso. apply Hne. reflexivity.
Qed.

End Runs.
Section Metrics.
Context {RS : RandomSource}.

Lemma metrics_fields num_agents w res :
  metrics num_agents w = inr res ->
  exists aw ut aq,
    compute_avg_wait (wait_times w) = inr aw
    /\ compute_utilization num_agents (busy_times (call_center w)) = inr ut
    /\ compute_avg_queue_len (wait_times w) = inr aq
    /\ res !! "avg_wait" = Some aw
    /\ res !! "utilization" = Some ut
    /\ res !! "num_served" = Some (py_len (wait_times w))
    /\ res !! "avg_queue_len" = Some aq.
Proof.
  unfold metrics. intros H.
  destruct (compute_avg_wait (wait_times w)) as [|aw]; [discriminate|].
  destruct (compute_utilization num_agents (busy_times (call_center w))) as [|ut];
    [discriminate|].
  destruct (compute_avg_queue_len (wait_times w)) as [|aq]; [discriminate|].
  simpl in H. injection H as <-.
  exists aw, ut, aq. repeat split; reflexivity.
Qed.
End Metrics.

(** ** The replication as a whole *)

Section Replication.
Context {RS : RandomSource}.

Lemma exec_capacity rate num_agents g n :
  capacity (agent (call_center (exec rate n (start_world num_agents g)).2)) = num_agents.
Proof.
  apply (exec_invariant (fun w => capacity (agent (call_center w)) = num_agents));
    [ | reflexivity ].
  intros w st w' Hw Hs. rewrite (step_capacity _ _ _ _ Hs). exact Hw.
Qed.

Lemma exec_handover rate num_agents g n :
  clock_inv (exec rate n (start_world num_agents g)).2
  /\ handover_inv (exec rate n (start_world num_agents g)).2.
Proof.
  apply (exec_invariant (fun w => clock_inv w /\ handover_inv w));
    [ | split; [ apply start_clock | apply start_handover ] ].
  intros w st w' [Hc Hh] Hs. split.
  - eapply step_clock; eassumption.
  - eapply step_handover; eassumption.
Qed.

Lemma no_pending_release (w : world) :
  clock_inv w -> handover_inv w ->
  (forall e, e ∈ queue (env w) -> now (env w) < e_time e) ->
  pending_releases (queue (env w)) = 0%nat.
Proof.
  intros _ [Ht _] Hfut. unfold pending_releases.
  assert (forall q, (forall e, e ∈ q -> is_release e = true -> False) ->
                    List.filter is_release q = []) as Hnone.
  { induction q as [|x q IH]; intros Hq; [reflexivity|]. simpl.
    destruct (is_release x) eqn:Hx.
    - exfalso. apply (Hq x); [ left | exact Hx ].
    - apply IH. intros e He. apply Hq. right. exact He. }
  rewrite Hnone; [reflexivity|].
  intros e He Hrel. specialize (Ht e He Hrel). specialize (Hfut e He). lra.
Qed.

Lemma all_future_check (w : world) :
  forallb (fun e => Qltb (now (env w)) (e_time e)) (queue (env w)) = true ->
  forall e, e ∈ queue (env w) -> now (env w) < e_time e.
Proof.
  intros H e He. rewrite forallb_forall in H.
  apply Qltb_true. apply H. apply list_elem_of_In. exact He.
Qed.

(** C5: in every state of a replication the pool holds at most [capacity]
    (= [num_agents]) requests; whenever all pending events lie strictly in
    the future, that is once the events of the current virtual time have
    been processed, requests wait only if the pool is full (in between, the
    free units are matched by Release events pending at the current time);
    and the requests are granted in the order in which they were made, the
    waiting ones being the ones not yet granted, oldest first. *)
Theorem pool_discipline rate num_agents g n :
  (0 < num_agents)%Z ->
  let w := (exec rate n (start_world num_agents g)).2 in
  let pool := agent (call_center w) in
  capacity pool = num_agents
  /\ (Z.of_nat (length (users pool)) <= num_agents)%Z
  /\ (put_queue pool <> [] ->
      (num_agents <= Z.of_nat (length (users pool) + pending_releases (queue (env w))))%Z)
  /\ ((forall e, e ∈ queue (env w) -> now (env w) < e_time e) ->
      put_queue pool <> [] -> Z.of_nat (length (users pool)) = num_agents)
  /\ grants (trace w) ++ put_queue pool = requests (trace w).
Proof.
  intros Hpos w pool.
  assert (capacity pool = num_agents) as Hcap by apply exec_capacity.
  assert (Z.of_nat (length (users pool)) <= num_agents)%Z as Hle.
  { rewrite <- Hcap.
    apply (exec_invariant pool_bounded rate); [ apply step_pool_bounded | ].
    unfold pool_bounded. simpl. lia. }
  destruct (exec_handover rate num_agents g n) as [Hc Hh].
  fold w in Hc, Hh.
  split; [exact Hcap|]. split; [exact Hle|]. split; [|split].
  - intros Hne. rewrite <- Hcap. apply Hh. exact Hne.
  - intros Hfut Hne.
    pose proof (no_pending_release w Hc Hh Hfut) as H0.
    destruct Hh as [_ Hq]. specialize (Hq Hne).
    fold pool in Hq. rewrite H0, Hcap in Hq. lia.
  - apply (exec_invariant fifo_inv rate); [ apply step_fifo | reflexivity ].
Qed.

(** C10: the fields [total_busy_time] and [last_event_time] of the
    CallCenter are 0 in every state of a replication, and the utilization is
    the sum of the recorded busy intervals over [num_agents * SIM_HOURS * 60]:
    it reads [busy_times] only. *)
Theorem unused_fields_remain_zero rate num_agents g n :
  let w := (exec rate n (start_world num_agents g)).2 in
  total_busy_time (call_center w) = 0%Z
  /\ last_event_time (call_center w) = 0%Z
  /\ forall res, metrics num_agents w = inr res ->
       res !! "utilization"
       = Some (py_sum (map (fun iv => snd iv - fst iv) (busy_times (call_center w)))
               / inject_Z (num_agents * SIM_HOURS * 60)).
Proof.
  intros w.
  assert (unused_fields w) as [Ht Hl].
  { apply (exec_invariant unused_fields rate); [ apply step_unused | split; reflexivity ]. }
  split; [exact Ht|]. split; [exact Hl|].
  intros res Hres.
  destruct (metrics_fields _ _ _ Hres) as (aw & ut & aq & _ & Hut & _ & _ & Hres_ut & _).
  rewrite Hres_ut. unfold compute_utilization, py_div, compute_total_busy_time in Hut.
  destruct (Qeq_bool _ 0); [discriminate|]. congruence.
Qed.

End Replication.

Lemma pool_discipline_witness :
  let w := (@exec busy_source 10 15 (start_world 1 (rng_seed 42))).2 in
  put_queue (agent (call_center w)) = [2%nat]
  /\ Z.of_nat (length (users (agent (call_center w)))) = 1%Z.
Proof.
  intros w. split; [ vm_compute; reflexivity | ].
  apply (@pool_discipline busy_source 10 1 (rng_seed 42) 15).
  - reflexivity.
  - apply all_future_check. vm_compute. reflexivity.
  - vm_compute. discriminate.
Defined.

(** With one agent and the draws of [busy_source], the first caller leaves
    at minute 220 while the third is waiting: until the Release event is
    processed the pool is empty and the queue is not. *)
Lemma free_unit_while_waiting :
  ~ @waits_only_when_full busy_source 10 (start_world 1 (rng_seed 42)).
Proof.
  intros H.
  set (pool := agent (call_center
                 (@exec busy_source 10 17 (start_world 1 (rng_seed 42))).2)).
  assert (put_queue pool <> []) as Hq by (vm_compute; discriminate).
  assert (Z.of_nat (length (users pool)) <> capacity pool) as Hne
    by (vm_compute; discriminate).
  apply Hne. exact (H 17%nat Hq).
Qed.

Lemma unused_fields_remain_zero_witness :
  let w := (@exec busy_source 10 30 (start_world 1 (rng_seed 42))).2 in
  exists res,
    metrics 1 w = inr res
    /\ res !! "utilization"
       = Some (py_sum (map (fun iv => snd iv - fst iv) (busy_times (call_center w)))
               / inject_Z (1 * SIM_HOURS * 60)).
Proof.
  intros w.
  destruct (metrics 1 w) as [e|res] eqn:Hm; [ vm_compute in Hm; discriminate | ].
  exists res. split; [ reflexivity | ].
  exact (proj2 (proj2 (@unused_fields_remain_zero busy_source 10 1 (rng_seed 42) 30))
           res Hm).
Defined.

Section Results.
Context {RS : RandomSource}.

Lemma replication_returned fuel num_agents rate r g res g' :
  replication fuel num_agents rate r g = (Returned res, g') ->
  (0 < num_agents)%Z
  /\ exists w,
       exec rate fuel (start_world num_agents (rng_seed (RANDOM_SEED + Z.of_nat r)))
         = (Stopped, w)
       /\ metrics num_agents w = inr res
       /\ g' = random w.
Proof.
  unfold replication. intros H.
  destruct (num_agents <=? 0)%Z eqn:Hna; [discriminate|].
  apply Z.leb_gt in Hna. split; [exact Hna|].
  destruct (exec rate fuel _) as [st w]. destruct st; try discriminate.
  exists w. split; [reflexivity|].
  destruct (metrics num_agents w); simpl in H; simplify_eq. split; reflexivity.
Qed.

Lemma metrics_total num_agents w :
  (0 < num_agents)%Z -> exists res, metrics num_agents w = inr res.
Proof.
  intros Hna. unfold metrics, compute_avg_wait, compute_avg_queue_len,
    compute_utilization, mean, py_div.
  assert (Qeq_bool (inject_Z (num_agents * SIM_HOURS * 60)) 0 = false) as ->.
  { apply not_true_iff_false. intros Heq. apply Qeq_bool_iff in Heq.
    unfold Qeq, SIM_HOURS in Heq. simpl in Heq. lia. }
  destruct (wait_times w); simpl; eexists; reflexivity.
Qed.

Lemma replication_stopped fuel num_agents rate r g w :
  (0 < num_agents)%Z ->
  exec rate fuel (start_world num_agents (rng_seed (RANDOM_SEED + Z.of_nat r)))
    = (Stopped, w) ->
  exists res, replication fuel num_agents rate r g = (Returned res, random w)
              /\ metrics num_agents w = inr res.
Proof.
  intros Hna Hex. destruct (metrics_total num_agents w Hna) as [res Hres].
  exists res. split; [|exact Hres].
  unfold replication. apply Z.leb_gt in Hna. rewrite Hna, Hex, Hres. reflexivity.
Qed.

Lemma count_started_split cs :
  count started cs = (count in_service cs + count departed cs)%nat.
Proof.
  unfold count. induction cs as [|c cs IH]; [reflexivity|].
  destruct c; simpl; lia.
Qed.

Lemma exec_count rate num_agents g n :
  count_inv (exec rate n (start_world num_agents g)).2.
Proof.
  apply exec_invariant; [ apply step_count | split; reflexivity ].
Qed.

Lemma stopped_at_horizon rate num_agents g n w :
  exec rate n (start_world num_agents g) = (Stopped, w) ->
  now (env w) == horizon
  /\ (forall e, e ∈ queue (env w) -> horizon <= e_time e)
  /\ (forall m, exec rate (n + m) (start_world num_agents g) = (Stopped, w))
  /\ length (wait_times w)
     = (count in_service (customers w) + length (busy_times (call_center w)))%nat.
Proof.
  intros H.
  assert (now (env w) == horizon
          /\ forall e, e ∈ queue (env w) -> horizon <= e_time e) as [Hn Hq].
  { apply (exec_stopped (fun w => clock_inv w /\ until_inv w)
             (fun w => now (env w) == horizon
                       /\ forall e, e ∈ queue (env w) -> horizon <= e_time e)
             rate) with (n := n) (w := start_world num_agents g).
    - intros w1 st w2 [Hc Hu] Hs. split.
      + eapply step_clock; eassumption.
      + eapply step_until; eassumption.
    - intros w1 w2 [Hc Hu] Hs. eapply step_stopped; eassumption.
    - split; [ apply start_clock | apply start_until ].
    - exact H. }
  split; [exact Hn|]. split; [exact Hq|]. split.
  - intros m. apply exec_final; [exact H | discriminate].
  - pose proof (exec_count rate num_agents g n) as [Hw Hb].
    rewrite H in Hw, Hb. simpl in Hw, Hb.
    rewrite Hw, Hb. apply count_started_split.
Qed.

(** C2, as the program has it: [num_served] is [len(wait_times)], the number
    of customers that were granted an agent and started service during the
    run, those still in service at the horizon included; the customers that
    completed service are the ones with a busy interval. *)
Theorem num_served_counts_started fuel num_agents rate r g res g' :
  replication fuel num_agents rate r g = (Returned res, g') ->
  exists w,
    exec rate fuel (start_world num_agents (rng_seed (RANDOM_SEED + Z.of_nat r)))
      = (Stopped, w)
    /\ res !! "num_served" = Some (inject_Z (Z.of_nat (count started (customers w))))
    /\ count started (customers w)
       = (count in_service (customers w) + count departed (customers w))%nat
    /\ length (busy_times (call_center w)) = count departed (customers w).
Proof.
  intros H. destruct (replication_returned _ _ _ _ _ _ _ H) as (_ & w & Hex & Hm & _).
  exists w. split; [exact Hex|].
  destruct (metrics_fields _ _ _ Hm) as (aw & ut & aq & _ & _ & _ & _ & _ & Hns & _).
  pose proof (exec_count rate num_agents
                (rng_seed (RANDOM_SEED + Z.of_nat r)) fuel) as [Hw Hb].
  rewrite Hex in Hw, Hb. simpl in Hw, Hb.
  split; [|split].
  - rewrite Hns. unfold py_len. rewrite Hw. reflexivity.
  - apply count_started_split.
  - exact Hb.
Qed.

Lemma foldl_Qplus_sum_of xs acc : foldl Qplus acc xs == acc + sum_of xs.
Proof.
  revert acc. induction xs as [|x xs IH]; intros acc; simpl.
  - ring.
  - rewrite IH. ring.
Qed.

(** [sum] and [statistics.mean] compute the sum and the arithmetic mean. *)
Lemma py_sum_sum_of xs : py_sum xs == sum_of xs.
Proof. unfold py_sum. rewrite foldl_Qplus_sum_of. ring. Qed.

Lemma py_mean_arithmetic_mean xs : py_sum xs / py_len xs == arithmetic_mean xs.
Proof. unfold arithmetic_mean, py_len. rewrite py_sum_sum_of. reflexivity. Qed.



(** C6: when the simulation of a replication has stopped the metrics are
    computed without an exception, and [avg_wait] is 0 if no wait was
    recorded and the arithmetic mean of the recorded waits otherwise. *)
Theorem avg_wait_is_mean fuel num_agents rate r g w :
  (0 < num_agents)%Z ->
  exec rate fuel (start_world num_agents (rng_seed (RANDOM_SEED + Z.of_nat r)))
    = (Stopped, w) ->
  exists res v,
    replication fuel num_agents rate r g = (Returned res, random w)
    /\ res !! "avg_wait" = Some v
    /\ (wait_times w = [] -> v = 0)
    /\ (wait_times w <> [] -> v == arithmetic_mean (wait_times w)).
Proof.
  intros Hna Hex.
  destruct (replication_stopped fuel num_agents rate r g w Hna Hex) as (res & Hr & Hm).
  destruct (metrics_fields _ _ _ Hm) as (aw & ut & aq & Haw & _ & _ & Hres & _).
  exists res, aw. split; [exact Hr|]. split; [exact Hres|].
  unfold compute_avg_wait, mean in Haw.
  destruct (wait_times w) as [|x xs]; simplify_eq; split; try congruence.
  intros _. apply py_mean_arithmetic_mean.
Qed.

(** C7: [avg_queue_len] is the sum of the recorded waits over 8, which is
    [SIM_HOURS], the horizon in hours. *)
Theorem avg_queue_len_is_sum_over_hours fuel num_agents rate r g res g' :
  replication fuel num_agents rate r g = (Returned res, g') ->
  exists w v,
    exec rate fuel (start_world num_agents (rng_seed (RANDOM_SEED + Z.of_nat r)))
      = (Stopped, w)
    /\ res !! "avg_queue_len" = Some v
    /\ v == sum_of (wait_times w) / 8
    /\ inject_Z SIM_HOURS == 8
    /\ horizon == inject_Z SIM_HOURS * 60.
Proof.
  intros H. destruct (replication_returned _ _ _ _ _ _ _ H) as (_ & w & Hex & Hm & _).
  destruct (metrics_fields _ _ _ Hm) as (aw & ut & aq & _ & _ & Haq & _ & _ & _ & Hres).
  exists w, aq. split; [exact Hex|]. split; [exact Hres|].
  split; [ | split; vm_compute; reflexivity ].
  unfold compute_avg_queue_len, py_div in Haq.
  destruct (wait_times w) as [|x xs]; simplify_eq.
  - vm_compute. reflexivity.
  - simpl in Haq. simplify_eq. rewrite py_sum_sum_of. reflexivity.
Qed.

Lemma recorded_times_nonneg rate num_agents g n :
  let w := (exec rate n (start_world num_agents g)).2 in
  Forall (fun x => 0 <= x) (wait_times w)
  /\ Forall (fun iv => fst iv <= snd iv) (busy_times (call_center w)).
Proof.
  intros w.
  assert (clock_inv w /\ times_inv w) as [_ (_ & Hw & Hb)].
  { apply (exec_invariant (fun w => clock_inv w /\ times_inv w));
      [ | split; [ apply start_clock | apply start_times ] ].
    intros w1 st w2 [Hc Ht] Hs. split.
    - eapply step_clock; eassumption.
    - eapply step_times; eassumption. }
  split; assumption.
Qed.

End Results.

(** ** The properties on concrete streams of draws *)

(** With every draw at 60 the only caller arrives at minute 360 and is in
    service until 660: the run stops at 480 with the caller in service and
    with its timeout and the next arrival pending. *)
Lemma in_service_customer_cut_off :
  ~ @runs_to_completion slow_source 10 (start_world 5 (rng_seed 42)).
Proof.
  intros H.
  destruct (H 6%nat (@exec slow_source 10 6 (start_world 5 (rng_seed 42))).2) as [Hq _].
  - vm_compute. reflexivity.
  - vm_compute in Hq. discriminate Hq.
Qed.

Lemma num_served_counts_started_witness :
  let res := match (@replication busy_source 100 1 10 0 (rng_seed 0)).1 with
             | Returned res => res
             | _ => ∅
             end in
  exists w,
    @exec busy_source 10 100 (start_world 1 (rng_seed (RANDOM_SEED + Z.of_nat 0)))
      = (Stopped, w)
    /\ res !! "num_served" = Some (inject_Z (Z.of_nat (count started (customers w))))
    /\ count started (customers w)
       = (count in_service (customers w) + count departed (customers w))%nat
    /\ length (busy_times (call_center w)) = count departed (customers w).
Proof.
  intros res.
  apply (@num_served_counts_started busy_source 100 1 10 0 (rng_seed 0) res
           (@replication busy_source 100 1 10 0 (rng_seed 0)).2).
  vm_compute. reflexivity.
Defined.

(** The same run: one customer is counted as served and none has departed. *)
Lemma num_served_counts_unfinished :
  ~ @served_are_departed slow_source 100 5 10 0.
Proof.
  intros H.
  destruct (@exec slow_source 10 100
              (start_world 5 (rng_seed (RANDOM_SEED + Z.of_nat 0)))) as [st w] eqn:Hex.
  pose proof Hex as Hex1. vm_compute in Hex1.
  destruct st; try discriminate Hex1.
  destruct (@replication_stopped slow_source 100 5 10 0 (rng_seed 0) w) as (res & Hr & Hm);
    [ reflexivity | exact Hex | ].
  specialize (H (rng_seed 0) res (random w) w Hr Hex).
  destruct (metrics_fields _ _ _ Hm) as (aw & ut & aq & _ & _ & _ & _ & _ & Hns & _).
  rewrite Hns in H. injection Hex1 as <-.
  vm_compute in H. discriminate H.
Qed.

Lemma avg_wait_is_mean_witness :
  let w := (@exec busy_source 10 100 (start_world 1 (rng_seed (RANDOM_SEED + Z.of_nat 0)))).2 in
  exists res v,
    @replication busy_source 100 1 10 0 (rng_seed 0) = (Returned res, random w)
    /\ res !! "avg_wait" = Some v
    /\ (wait_times w = [] -> v = 0)
    /\ (wait_times w <> [] -> v == arithmetic_mean (wait_times w)).
Proof.
  intros w.
  apply (@avg_wait_is_mean busy_source 100 1 10 0 (rng_seed 0) w).
  - reflexivity.
  - vm_compute. reflexivity.
Defined.

(** The three callers of [busy_source] wait 0, 0 and 16 minutes:
    [avg_wait] is 16/3. *)
Example avg_wait_busy :
  match (@replication busy_source 100 1 10 0 (rng_seed 0)).1 with
  | Returned res => exists v, res !! "avg_wait" = Some v /\ v == 16 # 3
  | _ => False
  end.
Proof. vm_compute. eexists. split; reflexivity. Qed.

(** At one call per hour no caller arrives before the horizon, and
    [avg_wait] is 0. *)
Example avg_wait_without_customers :
  match (@replication slow_source 100 5 1 0 (rng_seed 0)).1 with
  | Returned res => res !! "num_served" = Some 0 /\ res !! "avg_wait" = Some 0
  | _ => False
  end.
Proof. vm_compute. split; reflexivity. Qed.

Lemma avg_queue_len_is_sum_over_hours_witness :
  let res := match (@replication busy_source 100 1 10 0 (rng_seed 0)).1 with
             | Returned res => res
             | _ => ∅
             end in
  exists w v,
    @exec busy_source 10 100 (start_world 1 (rng_seed (RANDOM_SEED + Z.of_nat 0)))
      = (Stopped, w)
    /\ res !! "avg_queue_len" = Some v
    /\ v == sum_of (wait_times w) / 8
    /\ inject_Z SIM_HOURS == 8
    /\ horizon == inject_Z SIM_HOURS * 60.
Proof.
  intros res.
  apply (@avg_queue_len_is_sum_over_hours busy_source 100 1 10 0 (rng_seed 0) res
           (@replication busy_source 100 1 10 0 (rng_seed 0)).2).
  vm_compute. reflexivity.
Defined.

(** The third caller of [busy_source] waits 16 minutes: the sum of the waits
    is 16 and [avg_queue_len] is 2. *)
Example avg_queue_len_busy :
  match (@replication busy_source 100 1 10 0 (rng_seed 0)).1 with
  | Returned res => exists v, res !! "avg_queue_len" = Some v /\ v == 2
  | _ => False
  end.
Proof. vm_compute. eexists. split; reflexivity. Qed.

(** A service draw of 0 gives the busy interval (60, 60). *)
Lemma zero_service_time_interval :
  ~ @recorded_times_strict instant_source 10 (start_world 5 (rng_seed 42)).
Proof.
  intros H. destruct (H 7%nat) as [_ Hb].
  assert (busy_times (call_center
            (@exec instant_source 10 7 (start_world 5 (rng_seed 42))).2)
          = [(0 + (0 + 10 / (10 / 60)) + 0, 0 + (0 + 10 / (10 / 60)) + 0)]) as Hbt.
  { vm_compute. reflexivity. }
  rewrite Hbt in Hb. apply Forall_cons_1 in Hb as [Hlt _].
  simpl in Hlt. apply Qlt_irrefl in Hlt. exact Hlt.
Qed.

(** ** The scenario: replications and their aggregation *)

Section Aggregation.
Context {RS : RandomSource}.
Variable sqrt : Q -> Q.

Lemma replications_loop_seeded fuel num_agents rate rs acc g1 g2 :
  rs <> [] ->
  replications_loop fuel num_agents rate rs acc g1
  = replications_loop fuel num_agents rate rs acc g2.
Proof.
  destruct rs as [|r rs]; [congruence|]. intros _. reflexivity.
Qed.

(** C4: the state in which the module-wide generator is found does not
    matter.  Two executions of replication [r] with the same parameters give
    the same outcome (and leave the same generator state), and two
    executions of [run_scenario] with the same parameters give the same
    aggregate. *)
Theorem runs_are_reproducible fuel num_agents rate replications r g1 g2 :
  replication fuel num_agents rate r g1 = replication fuel num_agents rate r g2
  /\ (run_scenario sqrt fuel num_agents rate replications g1).1
     = (run_scenario sqrt fuel num_agents rate replications g2).1.
Proof.
  split; [ reflexivity | ].
  unfold run_scenario. destruct replications as [|n]; [ reflexivity | ].
  rewrite (replications_loop_seeded fuel num_agents rate (seq 0 (S n)) [] g1 g2);
    [ reflexivity | discriminate ].
Qed.

Lemma replications_loop_returned fuel num_agents rate rs acc g out g' :
  replications_loop fuel num_agents rate rs acc g = (Returned out, g') ->
  exists new,
    out = acc ++ new
    /\ Forall2 (fun r res =>
         exists w,
           exec rate fuel (start_world num_agents (rng_seed (RANDOM_SEED + Z.of_nat r)))
             = (Stopped, w)
           /\ metrics num_agents w = inr res) rs new.
Proof.
  revert acc g. induction rs as [|r rs IH]; intros acc g H; simpl in H.
  - simplify_eq. exists []. split; [ by rewrite app_nil_r | constructor ].
  - destruct (replication fuel num_agents rate r g) as [o g1] eqn:Hr.
    destruct o as [res| |]; try discriminate.
    destruct (IH _ _ H) as (new & -> & Hnew).
    exists (res :: new). split; [ by rewrite <- app_assoc | ].
    constructor; [ | exact Hnew ].
    destruct (replication_returned _ _ _ _ _ _ _ Hr) as (_ & w & Hex & Hm & _).
    exists w. split; assumption.
Qed.

Lemma column_length key all_results vals :
  column key all_results = inr vals -> length vals = length all_results.
Proof.
  revert vals. induction all_results as [|res rest IH]; intros vals H; simpl in H.
  - by simplify_eq.
  - destruct (res !! key); [ | discriminate ].
    destruct (column key rest) as [|vs]; [ discriminate | ].
    simpl in H. simplify_eq. simpl. f_equal. by apply IH.
Qed.

Lemma mean_returned data m :
  mean data = inr m -> data <> [] /\ m = py_sum data / py_len data.
Proof. unfold mean. destruct data; intros H; simplify_eq. by split. Qed.

Lemma pstdev_returned data sd :
  pstdev sqrt data = inr sd ->
  sd = sqrt (py_sum (map (sq_dev (py_sum data / py_len data)) data) / py_len data).
Proof. unfold pstdev. destruct data; intros H; by simplify_eq. Qed.

Lemma aggregate_cons key keys all_results agg agg' :
  aggregate sqrt (key :: keys) all_results agg = inr agg' ->
  exists vals,
    column key all_results = inr vals
    /\ vals <> []
    /\ aggregate sqrt keys all_results
         (<[key +:+ "_stdev" :=
              sqrt (py_sum (map (sq_dev (py_sum vals / py_len vals)) vals) / py_len vals)]>
            (<[key +:+ "_mean" := py_sum vals / py_len vals]> agg))
       = inr agg'.
Proof.
  intros H.
  change (aggregate sqrt (key :: keys) all_results agg) with
    (vals ← column key all_results;
     m ← mean vals;
     sd ← pstdev sqrt vals;
     aggregate sqrt keys all_results
       (<[key +:+ "_stdev" := sd]> (<[key +:+ "_mean" := m]> agg))) in H.
  destruct (column key all_results) as [|vals]; [discriminate|].
  exists vals. split; [reflexivity|].
  unfold mbind, exn_bind in H.
  destruct (mean vals) as [|m] eqn:Hm; [discriminate|].
  destruct (pstdev sqrt vals) as [|sd] eqn:Hsd; [discriminate|].
  apply mean_returned in Hm as [Hne ->]. apply pstdev_returned in Hsd as ->.
  split; [exact Hne|]. exact H.
Qed.


End Aggregation.







(** Two replications with average waits 16/3 and 5: their mean is 31/6 and
    their standard deviation 1/6, half their distance (with divisor [N - 1]
    it would be the square root of 1/18). *)
Example aggregate_of_two_replications :
  match (@run_scenario varied_source Qsqrt 100 1 10 2 (rng_seed 0)).1 with
  | Returned agg =>
      exists m s,
        agg !! "avg_wait_mean" = Some m /\ m == 31 # 6
        /\ agg !! "avg_wait_stdev" = Some s /\ s == 1 # 6
  | _ => False
  end.
Proof. vm_compute. eexists _, _. repeat split. Qed.

(** ** Parameters that are not positive *)

Section BadParameters.
Context {RS : RandomSource}.
Variable sqrt : Q -> Q.

Lemma Qdiv_neg_pos x y : 0 < x -> y < 0 -> x / y < 0.
Proof.
  intros Hx Hy.
  assert (x / y == - (x / - y)) as -> by (field; lra).
  assert (0 < x / - y); [ | lra ].
  apply Qlt_shift_div_l; lra.
Qed.

(** The first event of a run starts [setup], which draws at once. *)
Lemma first_step rate num_agents g :
  exists w0,
    now (env w0) == 0 /\ random w0 = g
    /\ step rate (start_world num_agents g) = setup_loop rate 0 w0.
Proof.
  eexists. split; [ | split ]; [ | | reflexivity ];
    [ vm_compute; reflexivity | reflexivity ].
Qed.

Lemma first_step_zero_rate rate num_agents g :
  rate == 0 ->
  exists w, step rate (start_world num_agents g) = (Raised ZeroDivisionError, w)
            /\ random w = (rng_exp g).2.
Proof.
  intros Hrate. destruct (first_step rate num_agents g) as (w0 & Hnow & Hg & ->).
  unfold setup_loop, expovariate.
  assert (Qltb (now (env w0)) horizon = true) as ->.
  { apply Qltb_true. rewrite Hnow. reflexivity. }
  rewrite Hg. destruct (rng_exp g) as [x g1].
  assert (Qeq_bool (rate / 60) 0 = true) as ->.
  { apply Qeq_bool_iff. rewrite Hrate. reflexivity. }
  eexists. split; reflexivity.
Qed.

Lemma first_step_negative_rate rate num_agents g :
  rate < 0 -> 0 < (rng_exp g).1 ->
  exists w, step rate (start_world num_agents g)
              = (Raised (ValueError "Negative delay"), w)
            /\ random w = (rng_exp g).2.
Proof.
  intros Hrate Hx. destruct (first_step rate num_agents g) as (w0 & Hnow & Hg & ->).
  unfold setup_loop, expovariate, timeout.
  assert (Qltb (now (env w0)) horizon = true) as ->.
  { apply Qltb_true. rewrite Hnow. reflexivity. }
  rewrite Hg. destruct (rng_exp g) as [x g1]. simpl in Hx.
  assert (Qeq_bool (rate / 60) 0 = false) as ->.
  { apply not_true_iff_false. intros Heq. apply Qeq_bool_iff in Heq.
    assert (rate == rate / 60 * 60) as Hr by field.
    rewrite Heq in Hr. lra. }
  assert (Qltb (x / (rate / 60)) 0 = true) as ->.
  { apply Qltb_true. apply Qdiv_neg_pos; [ exact Hx | ].
    apply Qlt_shift_div_r; lra. }
  eexists. split; reflexivity.
Qed.

Lemma run_scenario_first_raises fuel num_agents rate replications g e g' :
  replication fuel num_agents rate 0 g = (Raise e, g') ->
  run_scenario sqrt fuel num_agents rate (S replications) g = (Raise e, g').
Proof.
  intros H. unfold run_scenario. simpl seq.
  unfold replications_loop. rewrite H. reflexivity.
Qed.

(** C3, as the program has it: there is no check of the parameters.  When at
    least one replication is asked for, replication 0 is started (the
    generator is seeded with [RANDOM_SEED]) and fails: with [num_agents <= 0]
    on the construction of the pool (ValueError), with a rate of 0 on the
    first inter-arrival draw (ZeroDivisionError), with a negative rate of
    ordinary size, between -1000000 and -1, on the first timeout when the
    draw is not 0 (ValueError); the exception leaves [run_scenario].  (A
    negative float so close to 0 that [rate / 60.0] is [-0.0] would give
    the ZeroDivisionError instead.) *)
Theorem bad_parameters_fail_in_first_replication fuel num_agents rate replications g :
  ((num_agents <= 0)%Z ->
     run_scenario sqrt fuel num_agents rate (S replications) g
     = (Raise (ValueError "capacity must be > 0"), rng_seed (RANDOM_SEED + 0)))
  /\ ((0 < num_agents)%Z -> rate == 0 ->
        run_scenario sqrt (S fuel) num_agents rate (S replications) g
        = (Raise ZeroDivisionError, (rng_exp (rng_seed (RANDOM_SEED + 0))).2))
  /\ ((0 < num_agents)%Z -> - (1000000) <= rate -> rate <= - (1) ->
      0 < (rng_exp (rng_seed (RANDOM_SEED + 0))).1 ->
        run_scenario sqrt (S fuel) num_agents rate (S replications) g
        = (Raise (ValueError "Negative delay"),
           (rng_exp (rng_seed (RANDOM_SEED + 0))).2)).
Proof.
  split; [ | split ].
  - intros Hna. apply run_scenario_first_raises. unfold replication.
    apply Z.leb_le in Hna. rewrite Hna. reflexivity.
  - intros Hna Hrate. apply run_scenario_first_raises. unfold replication.
    apply Z.leb_gt in Hna. rewrite Hna.
    destruct (first_step_zero_rate rate num_agents (rng_seed (RANDOM_SEED + 0)) Hrate)
      as (w & Hs & Hg).
    change (Z.of_nat 0) with 0%Z.
    unfold exec. rewrite Hs, Hg. reflexivity.
  - intros Hna _ Hle Hx. assert (rate < 0) as Hrate by lra.
    apply run_scenario_first_raises. unfold replication.
    apply Z.leb_gt in Hna. rewrite Hna.
    destruct (first_step_negative_rate rate num_agents (rng_seed (RANDOM_SEED + 0))
                Hrate Hx) as (w & Hs & Hg).
    change (Z.of_nat 0) with 0%Z.
    unfold exec. rewrite Hs, Hg. reflexivity.
Qed.

End BadParameters.

Lemma bad_parameters_fail_in_first_replication_witness :
  @run_scenario slow_source (fun x => x) 0 0 10 30 (7%Z, 3%nat)
  = (Raise (ValueError "capacity must be > 0"), rng_seed (RANDOM_SEED + 0))
  /\ @run_scenario slow_source (fun x => x) 1 5 0 30 (7%Z, 3%nat)
     = (Raise ZeroDivisionError, (rng_exp (rng_seed (RANDOM_SEED + 0))).2)
  /\ @run_scenario slow_source (fun x => x) 1 5 (-10) 30 (7%Z, 3%nat)
     = (Raise (ValueError "Negative delay"), (rng_exp (rng_seed (RANDOM_SEED + 0))).2).
Proof.
  split; [ | split ].
  - apply (proj1 (@bad_parameters_fail_in_first_replication slow_source (fun x => x)
                    0 0 10 29 (7%Z, 3%nat))).
    reflexivity.
  - apply (proj1 (proj2 (@bad_parameters_fail_in_first_replication slow_source
                           (fun x => x) 0 5 0 29 (7%Z, 3%nat)))).
    + reflexivity.
    + reflexivity.
  - apply (proj2 (proj2 (@bad_parameters_fail_in_first_replication slow_source
                           (fun x => x) 0 5 (-10) 29 (7%Z, 3%nat)))).
    + reflexivity.
    + vm_compute. discriminate.
    + vm_compute. discriminate.
    + reflexivity.
Defined.

(** With no agent, replication 0 has been started when the call fails: the
    generator has been reseeded. *)
Lemma no_check_before_first_replication :
  ~ @rejects_bad_parameters slow_source (fun x => x).
Proof.
  intros H.
  destruct (H 0%nat 0%Z 10 30%nat (7%Z, 3%nat)) as [e He].
  - left. reflexivity.
  - vm_compute in He. discriminate He.
Qed.

(** ** The order of the recorded times *)

(** C9, as the program has it: every recorded wait is at least 0 and every
    recorded busy interval ends no earlier than it starts; the two ends can
    be equal ([expovariate] may return 0.0). *)
Theorem recorded_times_ordered `{RandomSource} rate num_agents g n :
  let w := (exec rate n (start_world num_agents g)).2 in
  Forall (fun x => 0 <= x) (wait_times w)
  /\ Forall (fun iv => fst iv <= snd iv) (busy_times (call_center w)).
Proof. apply recorded_times_nonneg. Qed.

Lemma busy_draws_positive (g : @rng busy_source) : 0 < (rng_exp g).1.
Proof.
  destruct g as [a i]. simpl. unfold busy_draw.
  do 5 (destruct i as [|i]; [ reflexivity | ]). reflexivity.
Qed.


(** ** The stop at the horizon *)

Lemma heappop_None q : heappop q = None -> q = [].
Proof.
  destruct q as [|e q]; [ reflexivity | ]. simpl.
  destruct (heappop q) as [[m r]|]; [ destruct (entry_ltb m e) | ]; discriminate.
Qed.

Lemma start_until_pending `{RandomSource} num_agents g :
  until_pending (start_world num_agents g).
Proof.
  eexists. split; [ simpl; rewrite !elem_of_cons; left; reflexivity | reflexivity ].
Qed.

(** C1, as the program has it: [env.run(until=SIM_HOURS * 60)] ends the run
    when the clock reaches the horizon.  At the stop the clock is at the
    horizon, every event still pending is due at the horizon or later and is
    never processed (the run stays as it is however long it is continued),
    and the customers then in service have recorded their wait but no busy
    interval. *)
Theorem run_stops_at_horizon `{RandomSource} rate num_agents g n w :
  exec rate n (start_world num_agents g) = (Stopped, w) ->
  now (env w) == horizon
  /\ (forall e, e ∈ queue (env w) -> horizon <= e_time e)
  /\ (forall m, exec rate (n + m) (start_world num_agents g) = (Stopped, w))
  /\ length (wait_times w)
     = (count in_service (customers w) + length (busy_times (call_center w)))%nat.
Proof. apply stopped_at_horizon. Qed.

Lemma run_stops_at_horizon_witness :
  let w := (@exec busy_source 10 22 (start_world 1 (rng_seed 42))).2 in
  count in_service (customers w) = 1%nat
  /\ now (env w) == horizon
  /\ (forall e, e ∈ queue (env w) -> horizon <= e_time e)
  /\ (forall m, @exec busy_source 10 (22 + m) (start_world 1 (rng_seed 42)) = (Stopped, w))
  /\ length (wait_times w)
     = (count in_service (customers w) + length (busy_times (call_center w)))%nat.
Proof.
  intros w. split; [ vm_compute; reflexivity | ].
  apply (@run_stops_at_horizon busy_source 10 1 (rng_seed 42) 22%nat w).
  vm_compute. reflexivity.
Defined.

(** * Further properties of the program *)

(** ** The order of the heap *)

Lemma entry_ltb_cotrans a b c :
  entry_ltb a c = true -> entry_ltb a b = true \/ entry_ltb b c = true.
Proof.
  unfold entry_ltb.
  destruct (Qcompare_spec (e_time a) (e_time c)) as [Hac|Hac|Hac];
    destruct (Qcompare_spec (e_time a) (e_time b)) as [Hab|Hab|Hab];
    destruct (Qcompare_spec (e_time b) (e_time c)) as [Hbc|Hbc|Hbc];
    intros H; try discriminate; auto; try (exfalso; lra).
  destruct (Nat.ltb_spec (e_prio a) (e_prio c)),
           (Nat.ltb_spec (e_prio a) (e_prio b)),
           (Nat.ltb_spec (e_prio b) (e_prio c)),
           (Nat.eqb_spec (e_prio a) (e_prio c)),
           (Nat.eqb_spec (e_prio a) (e_prio b)),
           (Nat.eqb_spec (e_prio b) (e_prio c)),
           (Nat.ltb_spec (e_eid a) (e_eid c)),
           (Nat.ltb_spec (e_eid a) (e_eid b)),
           (Nat.ltb_spec (e_eid b) (e_eid c));
    simpl in *; auto; try discriminate; lia.
Qed.

Lemma entry_ltb_asym a b : entry_ltb a b = true -> entry_ltb b a = false.
Proof.
  unfold entry_ltb.
  destruct (Qcompare_spec (e_time a) (e_time b)) as [Hab|Hab|Hab];
    destruct (Qcompare_spec (e_time b) (e_time a)) as [Hba|Hba|Hba];
    intros H; try discriminate; auto; try (exfalso; lra).
  destruct (Nat.ltb_spec (e_prio a) (e_prio b)),
           (Nat.ltb_spec (e_prio b) (e_prio a)),
           (Nat.eqb_spec (e_prio a) (e_prio b)),
           (Nat.eqb_spec (e_prio b) (e_prio a)),
           (Nat.ltb_spec (e_eid a) (e_eid b)),
           (Nat.ltb_spec (e_eid b) (e_eid a));
    simpl in *; auto; try discriminate; lia.
Qed.

(** [heappop] returns an item that no remaining item precedes in Python's
    order on (time, priority, eid). *)
Lemma heappop_least q m r x :
  heappop q = Some (m, r) -> x ∈ r -> entry_ltb x m = false.
Proof.
  revert m r x. induction q as [|e q IH]; intros m r x H Hx; simpl in H; [discriminate|].
  destruct (heappop q) as [[m' r']|] eqn:Hq.
  - destruct (entry_ltb m' e) eqn:Hlt; simplify_eq.
    + apply elem_of_cons in Hx as [->|Hx].
      * apply entry_ltb_asym. exact Hlt.
      * eapply IH; eauto.
    + rewrite (heappop_perm _ _ _ Hq) in Hx.
      apply elem_of_cons in Hx as [->|Hx]; [exact Hlt|].
      destruct (entry_ltb x m) eqn:Hxm; [ | reflexivity ].
      destruct (entry_ltb_cotrans x m' m Hxm) as [H1|H1].
      * rewrite (IH _ _ x eq_refl Hx) in H1. discriminate.
      * congruence.
  - simplify_eq. inversion Hx.
Qed.

(** ** The horizon as a boundary *)

Section Boundary.
Context {RS : RandomSource}.

Lemma exec_invariant_running (P Q : world -> Prop) rate :
  (forall w w', P w -> step rate w = (Running, w') -> P w') ->
  (forall w, P w -> Q w) ->
  (forall w st w', P w -> step rate w = (st, w') -> st <> Running -> Q w') ->
  forall n w, P w -> Q (exec rate n w).2.
Proof.
  intros Hrun HPQ Hend n. induction n as [|n IH]; intros w Hw; simpl; [auto|].
  destruct (step rate w) as [st w'] eqn:Hs.
  destruct st; simpl.
  - apply IH. eapply Hrun; eassumption.
  - eapply Hend; [ exact Hw | exact Hs | discriminate ].
  - eapply Hend; [ exact Hw | exact Hs | discriminate ].
Qed.

Lemma exec_running_invariant (P : world -> Prop) rate :
  (forall w w', P w -> step rate w = (Running, w') -> P w') ->
  forall n w w', P w -> exec rate n w = (Running, w') -> P w'.
Proof.
  intros Hrun n. induction n as [|n IH]; intros w w' Hw H; simpl in H.
  - by simplify_eq.
  - destruct (step rate w) as [st w1] eqn:Hs.
    destruct st; try discriminate. eapply IH; [ | exact H ]. eapply Hrun; eassumption.
Qed.

Lemma step_until_pending rate w w' :
  until_pending w -> step rate w = (Running, w') -> until_pending w'.
Proof.
  intros (u & Hu_in & Hu_ev) H.
  unfold step in H. destruct (heappop (queue (env w))) as [[m r]|] eqn:Hp;
    [ | discriminate ].
  apply (heappop_elem _ _ _ u Hp) in Hu_in as [->|Hu_in].
  { rewrite Hu_ev in H. discriminate. }
  clear Hp.
  unfold fire, setup_resume, setup_loop, serve_start, timeout, expovariate in H;
  repeat case_match; simplify_eq;
  unfold customer_start, customer_granted, customer_served, serve_resume,
    request, release, trigger_put, finish, spawn, schedule, set_customer;
  repeat case_match; simplify_eq; simpl in *.
  all: exists u; split; [ simpl; rewrite ?elem_of_cons; auto | exact Hu_ev ].
Qed.

Lemma step_boundary rate w st w' :
  boundary_inv w -> step rate w = (st, w') -> boundary_inv w'.
Proof.
  intros [He Hq] H.
  assert (forall m r x, heappop (queue (env w)) = Some (m, r) -> x ∈ r ->
            until_entry x
            \/ (e_event x <> EUntil
                /\ (e_time x < horizon \/ (horizon <= e_time x /\ (1 < e_eid x)%nat))))
    as Hr.
  { intros m r x Hp Hx. apply Hq. apply (heappop_elem _ _ _ x Hp). right. exact Hx. }
  unfold step in H. destruct (heappop (queue (env w))) as [[m r]|] eqn:Hp;
    [ specialize (Hr m r) | simplify_eq; split; assumption ].
  assert (forall x, x ∈ r ->
            until_entry x
            \/ (e_event x <> EUntil
                /\ (e_time x < horizon \/ (horizon <= e_time x /\ (1 < e_eid x)%nat))))
    as Hr' by (intros x Hx; apply Hr; [ reflexivity | exact Hx ]).
  clear Hr Hq Hp.
  unfold fire, setup_resume, setup_loop, serve_start, timeout, expovariate in H;
  repeat case_match; simplify_eq;
  unfold customer_start, customer_granted, customer_served, serve_resume,
    request, release, trigger_put, finish, spawn, schedule, set_customer;
  repeat case_match; simplify_eq; simpl in *.
  all: split; simpl; [ lia | ].
  all: try exact Hr'.
  all: intros x Hx; rewrite ?elem_of_cons in Hx; destruct_or?; subst;
       try (apply Hr'; assumption).
  all: right; split; [ discriminate | ].
  all: match goal with
       | |- ?t < horizon \/ _ =>
           destruct (Qlt_le_dec t horizon) as [Hlt|Hge];
             [ left; exact Hlt | right; split; [ exact Hge | simpl; lia ] ]
       end.
Qed.

Lemma until_entry_first u m :
  until_entry u -> horizon <= e_time m -> (1 < e_eid m)%nat -> entry_ltb u m = true.
Proof.
  intros (Ht & Hp & He & _) Hm Hid. unfold entry_ltb.
  destruct (Qcompare_spec (e_time u) (e_time m)) as [Heq|Hlt|Hgt];
    [ | reflexivity | exfalso; lra ].
  rewrite Hp, He. unfold URGENT.
  destruct (e_prio m) as [|p]; simpl; [ | reflexivity ].
  apply Nat.ltb_lt. exact Hid.
Qed.

(** An event that is processed without stopping the run is due before the
    horizon. *)
Lemma step_before_horizon rate w st w' :
  until_pending w -> boundary_inv w -> now (env w) < horizon ->
  step rate w = (st, w') -> st <> Stopped -> now (env w') < horizon.
Proof.
  intros (u & Hu_in & Hu_ev) [He Hq] Hnow H Hst.
  unfold step in H. destruct (heappop (queue (env w))) as [[m r]|] eqn:Hp;
    [ | by simplify_eq ].
  assert (e_time m < horizon) as Hm.
  { apply (heappop_elem _ _ _ u Hp) in Hu_in as [->|Hu_in].
    { rewrite Hu_ev in H. simpl in H. congruence. }
    assert (until_entry u) as Hu.
    { destruct (Hq u) as [Hu|[Hne _]]; [ | exact Hu | congruence ].
      apply (heappop_elem _ _ _ u Hp). right. exact Hu_in. }
    destruct (Hq m) as [Hmu|[_ [Hlt|[Hge Hid]]]].
    - apply (heappop_elem _ _ _ m Hp). left. reflexivity.
    - destruct Hmu as (_ & _ & _ & Hmu). rewrite Hmu in H. simpl in H. congruence.
    - exact Hlt.
    - pose proof (until_entry_first u m Hu Hge Hid) as Hlt.
      rewrite (heappop_least _ _ _ u Hp Hu_in) in Hlt. discriminate. }
  clear Hp Hq.
  unfold fire, setup_resume, setup_loop, serve_start, timeout, expovariate in H;
  repeat case_match; simplify_eq;
  unfold customer_start, customer_granted, customer_served, serve_resume,
    request, release, trigger_put, finish, spawn, schedule, set_customer;
  repeat case_match; simplify_eq; simpl in *; exact Hm.
Qed.

Lemma start_boundary num_agents g : boundary_inv (start_world num_agents g).
Proof.
  split; [ simpl; lia | ].
  intros e He. simpl in He. rewrite !elem_of_cons in He.
  destruct He as [->|[->|He]]; [ left | right | inversion He ].
  - split; [ vm_compute; reflexivity | repeat split ].
  - split; [ discriminate | left; vm_compute; reflexivity ].
Qed.

End Boundary.

Section Clock.
Context {RS : RandomSource}.

Lemma exec_status_invariant (P : world -> Prop) (Q : status -> world -> Prop) rate :
  (forall w w', P w -> step rate w = (Running, w') -> P w') ->
  (forall w, P w -> Q Running w) ->
  (forall w st w', P w -> step rate w = (st, w') -> st <> Running -> Q st w') ->
  forall n w, P w -> Q (exec rate n w).1 (exec rate n w).2.
Proof.
  intros Hrun HPQ Hend n. induction n as [|n IH]; intros w Hw; simpl; [auto|].
  destruct (step rate w) as [st w'] eqn:Hs.
  destruct st; simpl.
  - apply IH. eapply Hrun; eassumption.
  - eapply Hend; [ exact Hw | exact Hs | discriminate ].
  - eapply Hend; [ exact Hw | exact Hs | discriminate ].
Qed.

Lemma exec_add rate n m w :
  exec rate (n + m) w
  = match exec rate n w with
    | (Running, w') => exec rate m w'
    | r => r
    end.
Proof.
  revert w. induction n as [|n IH]; intros w; simpl; [ reflexivity | ].
  destruct (step rate w) as [st w1]. destruct st; auto.
Qed.

Lemma exec_now_mono rate n w :
  clock_inv w -> now (env w) <= now (env (exec rate n w).2).
Proof.
  revert w. induction n as [|n IH]; intros w Hw; simpl; [ apply Qle_refl | ].
  destruct (step rate w) as [st w1] eqn:Hs.
  pose proof (step_now_mono _ _ _ _ Hw Hs) as Hle.
  destruct st; simpl; try exact Hle.
  eapply Qle_trans; [ exact Hle | ]. apply IH. eapply step_clock; eassumption.
Qed.

(** The virtual clock starts at 0 and never goes back: the time of a later
    state of a run is at least the time of an earlier one. *)
Theorem clock_monotone rate num_agents g n m :
  0 <= now (env (exec rate n (start_world num_agents g)).2)
  /\ now (env (exec rate n (start_world num_agents g)).2)
     <= now (env (exec rate (n + m) (start_world num_agents g)).2).
Proof.
  split.
  - apply (exec_now_mono rate n (start_world num_agents g)). apply start_clock.
  - rewrite exec_add.
    pose proof (exec_invariant clock_inv rate (step_clock rate) n
                  (start_world num_agents g) (start_clock num_agents g)) as Hc.
    destruct (exec rate n (start_world num_agents g)) as [st w].
    destruct st; simpl in *; try apply Qle_refl.
    apply exec_now_mono. exact Hc.
Qed.

Lemma step_busy_times rate w st w' :
  step rate w = (st, w') ->
  busy_times (call_center w') = busy_times (call_center w)
  \/ (st = Running
      /\ exists s, busy_times (call_center w')
                   = busy_times (call_center w) ++ [(s, now (env w'))]).
Proof.
  intros H. step_cases H; auto.
  all: right; split; [ reflexivity | eexists; reflexivity ].
Qed.

Lemma step_wait_times rate w st w' :
  step rate w = (st, w') ->
  wait_times w' = wait_times w
  \/ (st = Running
      /\ exists k a, customers w !! k = Some (CustQueued a)
                     /\ wait_times w' = wait_times w ++ [now (env w') - a]).
Proof.
  intros H. step_cases H; auto.
  all: right; split; [ reflexivity | eexists _, _; split; [ eassumption | reflexivity ] ].
Qed.

Lemma step_arrivals rate w st w' :
  0 <= now (env w) -> clock_inv w -> Forall arrival_ok (customers w) ->
  step rate w = (st, w') -> Forall arrival_ok (customers w').
Proof.
  intros Hnow Hc Hcs H.
  assert (forall m r, heappop (queue (env w)) = Some (m, r) -> 0 <= e_time m) as Hm.
  { intros m r Hp. eapply Qle_trans; [ exact Hnow | ].
    apply Hc. apply (heappop_elem _ _ _ m Hp). left. reflexivity. }
  unfold step in H. destruct (heappop (queue (env w))) as [[m r]|] eqn:Hp;
    [ specialize (Hm _ _ eq_refl) | by simplify_eq ].
  clear Hp Hc.
  unfold fire, setup_resume, setup_loop, serve_start, timeout, expovariate in H;
  repeat case_match; simplify_eq;
  unfold customer_start, customer_granted, customer_served, serve_resume,
    request, release, trigger_put, finish, spawn, schedule, set_customer;
  repeat case_match; simplify_eq; simpl in *; try assumption.
  all: repeat first [ apply Forall_insert | apply Forall_app_2
                    | apply Forall_cons_2 | apply Forall_nil_2 ];
       try assumption; simpl; try exact I.
Qed.

Lemma step_before_horizon_inv rate w st w' :
  before_horizon w -> step rate w = (st, w') ->
  (st = Running -> before_horizon w')
  /\ (st <> Stopped -> now (env w') < horizon)
  /\ (st = Stopped -> now (env w') == horizon)
  /\ Forall (fun x => x < horizon) (wait_times w')
  /\ Forall (fun iv => snd iv < horizon) (busy_times (call_center w')).
Proof.
  intros (Hu & Hb & Hc & Hui & Hnow0 & Hnow & Harr & Hwait & Hbusy) H.
  assert (st <> Stopped -> now (env w') < horizon) as Hlt.
  { intros Hst. eapply step_before_horizon; eassumption. }
  assert (Forall (fun iv => snd iv < horizon) (busy_times (call_center w'))) as Hbusy'.
  { destruct (step_busy_times _ _ _ _ H) as [->|(-> & s & ->)]; [ exact Hbusy | ].
    apply Forall_app_2; [ exact Hbusy | ].
    apply Forall_cons_2; [ | apply Forall_nil_2 ]. simpl. apply Hlt. discriminate. }
  assert (Forall (fun x => x < horizon) (wait_times w')) as Hwait'.
  { destruct (step_wait_times _ _ _ _ H) as [->|(-> & k & a & Hk & ->)];
      [ exact Hwait | ].
    apply Forall_app_2; [ exact Hwait | ].
    apply Forall_cons_2; [ | apply Forall_nil_2 ].
    pose proof (Forall_lookup_1 _ _ _ _ Harr Hk) as Ha. simpl in Ha.
    assert (now (env w') < horizon) by (apply Hlt; discriminate). lra. }
  split; [ | split; [ exact Hlt | split; [ | split; assumption ] ] ].
  - intros ->. unfold before_horizon. split_and!.
    + eapply step_until_pending; eassumption.
    + eapply step_boundary; eassumption.
    + eapply step_clock; eassumption.
    + eapply step_until; eassumption.
    + eapply Qle_trans; [ exact Hnow0 | ]. eapply step_now_mono; eassumption.
    + apply Hlt. discriminate.
    + eapply step_arrivals; eassumption.
    + exact Hwait'.
    + exact Hbusy'.
  - intros ->. eapply step_stopped; eassumption.
Qed.

Lemma exec_before_horizon rate num_agents g n :
  let r := exec rate n (start_world num_agents g) in
  (r.1 <> Stopped -> now (env r.2) < horizon)
  /\ (r.1 = Stopped -> now (env r.2) == horizon)
  /\ Forall (fun x => x < horizon) (wait_times r.2)
  /\ Forall (fun iv => snd iv < horizon) (busy_times (call_center r.2)).
Proof.
  apply (exec_status_invariant before_horizon
           (fun st w =>
              (st <> Stopped -> now (env w) < horizon)
              /\ (st = Stopped -> now (env w) == horizon)
              /\ Forall (fun x => x < horizon) (wait_times w)
              /\ Forall (fun iv => snd iv < horizon) (busy_times (call_center w)))
           rate).
  - intros w w' Hw Hs. apply (step_before_horizon_inv _ _ _ _ Hw Hs). reflexivity.
  - intros w (_ & _ & _ & _ & _ & Hnow & _ & Hwait & Hbusy).
    split; [ intros _; exact Hnow | split; [ discriminate | split; assumption ] ].
  - intros w st w' Hw Hs _. apply (step_before_horizon_inv _ _ _ _ Hw Hs).
  - unfold before_horizon. split_and!.
    + apply start_until_pending.
    + apply start_boundary.
    + apply start_clock.
    + apply start_until.
    + simpl. lra.
    + vm_compute. reflexivity.
    + constructor.
    + constructor.
    + constructor.
Qed.

(** While a run is going its clock is before the horizon, and it is at the
    horizon when the run has stopped: apart from the until event no event
    due at 480 or later is processed, so that every recorded wait is below
    480 and every recorded busy interval ends before 480 (a service that
    ends at 480 sharp is not recorded). *)
Theorem events_before_horizon rate num_agents g n :
  let r := exec rate n (start_world num_agents g) in
  match r.1 with
  | Stopped => now (env r.2) == horizon
  | _ => now (env r.2) < horizon
  end
  /\ Forall (fun x => x < horizon) (wait_times r.2)
  /\ Forall (fun iv => snd iv < horizon) (busy_times (call_center r.2)).
Proof.
  intros r.
  destruct (exec_before_horizon rate num_agents g n) as (Hrun & Hstop & Hrest).
  fold r in Hrun, Hstop, Hrest. split; [ | exact Hrest ].
  destruct (r.1) eqn:Hst.
  - apply Hrun. discriminate.
  - apply Hstop. reflexivity.
  - apply Hrun. discriminate.
Qed.

End Clock.

(** ** Utilization *)

Lemma heappop_filter_length (f : entry -> bool) q m r :
  heappop q = Some (m, r) ->
  length (List.filter f q) = ((if f m then 1 else 0) + length (List.filter f r))%nat.
Proof.
  revert m r. induction q as [|e q IH]; intros m r H; simpl in H; [discriminate|].
  destruct (heappop q) as [[m' r']|] eqn:Hq.
  - specialize (IH _ _ eq_refl).
    destruct (entry_ltb m' e); simplify_eq; simpl.
    + destruct (f e), (f m); simpl in *; lia.
    + destruct (f m); simpl; lia.
  - simplify_eq. apply heappop_None in Hq as ->. simpl. destruct (f m); reflexivity.
Qed.

Lemma py_sum_snoc xs x : py_sum (xs ++ [x]) = py_sum xs + x.
Proof. unfold py_sum. rewrite foldl_app. reflexivity. Qed.

Lemma foldl_Qplus_nonneg xs a :
  0 <= a -> Forall (fun x => 0 <= x) xs -> 0 <= foldl Qplus a xs.
Proof.
  revert a. induction xs as [|x xs IH]; intros a Ha Hxs; simpl; [ exact Ha | ].
  apply Forall_cons_1 in Hxs as [Hx Hxs]. apply IH; [ lra | exact Hxs ].
Qed.

Lemma total_busy_time_snoc bt iv :
  compute_total_busy_time (bt ++ [iv])
  = compute_total_busy_time bt + (snd iv - fst iv).
Proof. unfold compute_total_busy_time. rewrite map_app. apply py_sum_snoc. Qed.

Lemma total_busy_time_nonneg bt :
  Forall (fun iv => fst iv <= snd iv) bt -> 0 <= compute_total_busy_time bt.
Proof.
  intros H. unfold compute_total_busy_time, py_sum.
  apply foldl_Qplus_nonneg; [ lra | ].
  apply Forall_map. eapply Forall_impl; [ exact H | ].
  intros [s e] Hiv. simpl in *. lra.
Qed.

Lemma service_sum_shift t t' cs :
  service_sum t' cs
  == service_sum t cs + inject_Z (Z.of_nat (count in_service cs)) * (t' - t).
Proof.
  unfold count. induction cs as [|c cs IH].
  - simpl. ring.
  - destruct c; simpl service_sum; simpl List.filter; rewrite IH;
      unfold in_service_time; try ring.
    rewrite length_cons, Nat2Z.inj_succ. unfold Z.succ. rewrite inject_Z_plus.
    change (inject_Z 1) with 1. ring.
Qed.

Lemma service_sum_insert t cs k c c' :
  cs !! k = Some c ->
  service_sum t (<[k:=c']> cs) + in_service_time t c
  == service_sum t cs + in_service_time t c'.
Proof.
  revert k. induction cs as [|x cs IH]; intros k Hk; [discriminate|].
  destruct k as [|k]; simpl in *.
  - simplify_eq. ring.
  - specialize (IH _ Hk). lra.
Qed.

Lemma service_sum_snoc t cs c :
  service_sum t (cs ++ [c]) == service_sum t cs + in_service_time t c.
Proof.
  induction cs as [|x cs IH]; simpl; [ ring | ]. rewrite IH. ring.
Qed.

Lemma service_sum_nonneg t cs :
  Forall (cust_times_ok t) cs -> 0 <= service_sum t cs.
Proof.
  induction 1 as [|c cs Hc _ IH]; simpl; [ lra | ].
  destruct c; simpl in *; lra.
Qed.

Section Utilization.
Context {RS : RandomSource}.

Lemma step_holders rate w st w' :
  holders_inv w -> step rate w = (st, w') -> holders_inv w'.
Proof.
  intros Hw H. unfold holders_inv, pending_requests in *.
  unfold step in H. destruct (heappop (queue (env w))) as [[m r]|] eqn:Hp;
    [ | by simplify_eq ].
  rewrite (heappop_filter_length is_request _ _ _ Hp) in Hw. clear Hp.
  unfold is_request in Hw at 1.
  unfold fire, setup_resume, setup_loop, serve_start, timeout, expovariate in H;
  repeat case_match; simplify_eq;
  unfold customer_start, customer_granted, customer_served, serve_resume,
    request, release, trigger_put, finish, spawn, schedule, set_customer;
  repeat case_match; simplify_eq; simpl in *.
  all: rewrite ?length_app, ?count_snoc; simpl.
  all: try match goal with
       | Hk : customers _ !! ?k = Some ?c |- context [count ?f (<[?k:=?c']> _)] =>
           pose proof (count_insert f _ k c c' Hk) as Hci; simpl in Hci
       end.
  all: try match goal with
       | |- context [remove_first ?k ?l] => pose proof (remove_first_length k l)
       end.
  all: lia.
Qed.

Lemma step_busy rate w st w' :
  clock_inv w -> pool_bounded w -> holders_inv w -> busy_inv w ->
  step rate w = (st, w') -> busy_inv w'.
Proof.
  intros Hc Hp Hh Hb H. unfold busy_inv in *.
  unfold step in H. destruct (heappop (queue (env w))) as [[m r]|] eqn:Hpop;
    [ | by simplify_eq ].
  assert (compute_total_busy_time (busy_times (call_center w))
          + service_sum (e_time m) (customers w)
          <= inject_Z (capacity (agent (call_center w))) * e_time m) as Hm.
  { assert (now (env w) <= e_time m) as Hle.
    { apply Hc. apply (heappop_elem _ _ _ m Hpop). left. reflexivity. }
    rewrite (service_sum_shift (now (env w)) (e_time m)).
    assert (inject_Z (Z.of_nat (count in_service (customers w)))
            <= inject_Z (capacity (agent (call_center w)))) as Hn.
    { rewrite <- Zle_Qle. unfold holders_inv, pool_bounded in *. lia. }
    assert (inject_Z (Z.of_nat (count in_service (customers w)))
              * (e_time m - now (env w))
            <= inject_Z (capacity (agent (call_center w))) * (e_time m - now (env w)))
      as Hmul by (apply Qmult_le_compat_r; [ exact Hn | lra ]).
    lra. }
  clear Hc Hp Hh Hb Hpop.
  unfold fire, setup_resume, setup_loop, serve_start, timeout, expovariate in H;
  repeat case_match; simplify_eq;
  unfold customer_start, customer_granted, customer_served, serve_resume,
    request, release, trigger_put, finish, spawn, schedule, set_customer;
  repeat case_match; simplify_eq; simpl in *.
  all: try exact Hm.
  all: rewrite ?total_busy_time_snoc; simpl.
  all: try match goal with
       | Hk : customers _ !! ?k = Some ?c |- context [service_sum ?t (<[?k:=?c']> _)] =>
           pose proof (service_sum_insert t _ k c c' Hk) as Hsi; simpl in Hsi
       end.
  all: try match goal with
       | |- context [service_sum ?t (?cs ++ [?c])] =>
           pose proof (service_sum_snoc t cs c) as Hss; simpl in Hss
       end.
  all: lra.
Qed.

Lemma exec_utilization_inv rate num_agents g n :
  (0 <= num_agents)%Z ->
  utilization_inv (exec rate n (start_world num_agents g)).2.
Proof.
  intros Hna. apply exec_invariant.
  - intros w st w' (Hc & Ht & Hp & Hh & Hb) Hs. unfold utilization_inv. split_and!.
    + eapply step_clock; eassumption.
    + eapply step_times; eassumption.
    + eapply step_pool_bounded; eassumption.
    + eapply step_holders; eassumption.
    + eapply step_busy; eassumption.
  - unfold utilization_inv. split_and!.
    + apply start_clock.
    + apply start_times.
    + unfold pool_bounded. simpl. lia.
    + unfold holders_inv. vm_compute. lia.
    + unfold busy_inv. simpl. unfold compute_total_busy_time, py_sum. simpl. lra.
Qed.

(** In every state of a replication the agent-minutes recorded in
    [busy_times] are at most [num_agents] times the minutes elapsed. *)
Lemma busy_time_bounded rate num_agents g n :
  (0 <= num_agents)%Z ->
  let w := (exec rate n (start_world num_agents g)).2 in
  0 <= compute_total_busy_time (busy_times (call_center w))
  /\ compute_total_busy_time (busy_times (call_center w))
     <= inject_Z num_agents * now (env w).
Proof.
  intros Hna w.
  destruct (exec_utilization_inv rate num_agents g n Hna)
    as (_ & (Hcs & _ & Hbt) & _ & _ & Hb).
  pose proof (exec_capacity rate num_agents g n) as Hcap.
  fold w in Hcs, Hbt, Hb, Hcap. unfold busy_inv in Hb. rewrite Hcap in Hb.
  pose proof (service_sum_nonneg _ _ Hcs).
  split; [ apply total_busy_time_nonneg; exact Hbt | lra ].
Qed.

Lemma metrics_utilization_bounded fuel num_agents rate g w res :
  (0 < num_agents)%Z ->
  exec rate fuel (start_world num_agents g) = (Stopped, w) ->
  metrics num_agents w = inr res ->
  exists u, res !! "utilization" = Some u /\ 0 <= u /\ u <= 1.
Proof.
  intros Hna Hex Hm.
  destruct (metrics_fields _ _ _ Hm) as (aw & ut & aq & _ & Hut & _ & _ & Hres & _).
  exists ut. split; [ exact Hres | ].
  assert (0 <= num_agents)%Z as Hna0 by lia.
  pose proof (busy_time_bounded rate num_agents g fuel Hna0) as Hb.
  rewrite Hex in Hb. simpl in Hb. destruct Hb as [Hb0 Hb1].
  destruct (stopped_at_horizon _ _ _ _ _ Hex) as (Hnow & _).
  rewrite Hnow in Hb1.
  unfold compute_utilization, py_div in Hut.
  destruct (Qeq_bool _ 0); [ discriminate | ]. injection Hut as <-.
  assert (0 < inject_Z (num_agents * SIM_HOURS * 60)) as Hd.
  { rewrite <- (Zlt_Qlt 0). unfold SIM_HOURS. lia. }
  assert (inject_Z num_agents * horizon == inject_Z (num_agents * SIM_HOURS * 60)) as Heq.
  { unfold horizon. rewrite <- inject_Z_mult.
    replace (num_agents * (SIM_HOURS * 60))%Z with (num_agents * SIM_HOURS * 60)%Z
      by ring.
    reflexivity. }
  rewrite Heq in Hb1.
  split.
  - apply Qle_shift_div_l; [ exact Hd | lra ].
  - apply Qle_shift_div_r; [ exact Hd | lra ].
Qed.

(** The utilization that a replication reports lies between 0 and 1: the
    busy intervals are not negative and, with at most [num_agents] holders
    at a time and a run that is cut at the horizon, they add up to at most
    [num_agents * SIM_HOURS * 60] minutes. *)
Theorem utilization_between_0_and_1 fuel num_agents rate r g res g' :
  replication fuel num_agents rate r g = (Returned res, g') ->
  exists u, res !! "utilization" = Some u /\ 0 <= u /\ u <= 1.
Proof.
  intros H.
  destruct (replication_returned _ _ _ _ _ _ _ H) as (Hna & w & Hex & Hm & _).
  eapply metrics_utilization_bounded; eassumption.
Qed.

End Utilization.

Lemma utilization_between_0_and_1_witness :
  let out := @replication busy_source 100 1 10 0 (rng_seed 0) in
  let res := match out.1 with Returned res => res | _ => ∅ end in
  exists u, res !! "utilization" = Some u /\ 0 <= u /\ u <= 1.
Proof.
  intros out res.
  apply (@utilization_between_0_and_1 busy_source 100 1 10 0 (rng_seed 0) res out.2).
  vm_compute. reflexivity.
Defined.

(** ** Exceptions *)

Lemma Qdiv_neg_cases x y :
  ~ y == 0 -> x / y < 0 -> (x < 0 /\ 0 < y) \/ (0 < x /\ y < 0).
Proof.
  intros Hy Hd.
  destruct (Qlt_le_dec 0 y) as [Hpos|Hle].
  - left. split; [ | exact Hpos ].
    destruct (Qlt_le_dec x 0) as [Hx|Hx]; [ exact Hx | exfalso ].
    assert (0 <= x / y) by (apply Qle_shift_div_l; [ exact Hpos | lra ]). lra.
  - assert (y < 0) as Hneg.
    { destruct (Qlt_le_dec y 0) as [Hlt|Hge]; [ exact Hlt | ].
      exfalso. apply Hy. lra. }
    right. split; [ | exact Hneg ].
    destruct (Qlt_le_dec 0 x) as [Hx|Hx]; [ exact Hx | exfalso ].
    assert (x / y == (- x) / (- y)) as Heq by (field; exact Hy).
    assert (0 <= (- x) / (- y)) by (apply Qle_shift_div_l; lra). lra.
Qed.

Section Exceptions.
Context {RS : RandomSource}.

(** What a step can raise, and why. *)
Lemma step_raises rate w e w' :
  until_pending w -> step rate w = (Raised e, w') ->
  (e = ZeroDivisionError /\ rate == 0)
  \/ (e = ValueError "Negative delay"
      /\ exists g, (rng_exp g).1 < 0 \/ (rate < 0 /\ 0 < (rng_exp g).1)).
Proof.
  intros (u & Hu_in & _) H.
  unfold step in H. destruct (heappop (queue (env w))) as [[m r]|] eqn:Hp;
    [ | apply heappop_None in Hp; rewrite Hp in Hu_in; inversion Hu_in ].
  clear Hp Hu_in.
  unfold fire, setup_resume, setup_loop, serve_start, timeout, expovariate in H;
  repeat case_match; simplify_eq; simpl in *; Qhyps.
  all: try match goal with
       | Hz : Qeq_bool (1 / inject_Z MEAN_SERVICE_MINUTES) 0 = true |- _ =>
           vm_compute in Hz; discriminate Hz
       end.
  all: try (left; split; [ reflexivity | ];
            match goal with
            | Hz : Qeq_bool (?r / 60) 0 = true |- _ =>
                apply Qeq_bool_iff in Hz;
                assert (r == r / 60 * 60) as Hr by field;
                rewrite Hz in Hr; lra
            end).
  all: right; split; [ reflexivity | ].
  all: match goal with
       | Hd : rng_exp ?g = (?x, _) |- _ =>
           exists g; rewrite Hd; simpl
       end.
  all: try match goal with
       | Hn : ?x / (1 / inject_Z MEAN_SERVICE_MINUTES) < 0 |- _ =>
           left;
           assert (x / (1 / inject_Z MEAN_SERVICE_MINUTES) == x * 5) as Hq5
             by (unfold MEAN_SERVICE_MINUTES; field);
           rewrite Hq5 in Hn; lra
       end.
  all: match goal with
       | Hz : Qeq_bool (?r / 60) 0 = false, Hn : ?x / (?r / 60) < 0 |- _ =>
           apply Qdiv_neg_cases in Hn;
             [ destruct Hn as [[Hx Hr]|[Hx Hr]];
                 [ left; exact Hx
                 | right; split; [ | exact Hx ];
                   assert (r == r / 60 * 60) as Hr60 by field;
                   assert (r / 60 * 60 < 0) by lra; lra ]
             | intros Heq; apply Qeq_bool_iff in Heq; congruence ]
       end.
Qed.

End Exceptions.

Section ScenarioExceptions.
Context {RS : RandomSource}.
Variable sqrt : Q -> Q.

Lemma exec_raised (P : world -> Prop) rate :
  (forall w w', P w -> step rate w = (Running, w') -> P w') ->
  forall n w e w', P w -> exec rate n w = (Raised e, w') ->
  exists w1, P w1 /\ step rate w1 = (Raised e, w').
Proof.
  intros Hrun n. induction n as [|n IH]; intros w e w' Hw H; simpl in H;
    [ discriminate | ].
  destruct (step rate w) as [st w1] eqn:Hs.
  destruct st; simplify_eq.
  - eapply IH; [ | exact H ]. eapply Hrun; eassumption.
  - exists w. split; assumption.
Qed.

Lemma replication_raised fuel num_agents rate r g e g' :
  replication fuel num_agents rate r g = (Raise e, g') ->
  (e = ValueError "capacity must be > 0" /\ (num_agents <= 0)%Z)
  \/ ((0 < num_agents)%Z
      /\ ((e = ZeroDivisionError /\ rate == 0)
          \/ (e = ValueError "Negative delay"
              /\ exists g0, (rng_exp g0).1 < 0 \/ (rate < 0 /\ 0 < (rng_exp g0).1)))).
Proof.
  unfold replication. intros H.
  destruct (num_agents <=? 0)%Z eqn:Hna.
  - left. apply Z.leb_le in Hna. split; [ congruence | exact Hna ].
  - right. apply Z.leb_gt in Hna. split; [ exact Hna | ].
    destruct (exec rate fuel _) as [st w] eqn:Hex. destruct st; try discriminate.
    + destruct (metrics_total num_agents w Hna) as [res Hres].
      rewrite Hres in H. discriminate.
    + injection H as -> _.
      destruct (exec_raised until_pending rate (step_until_pending rate)
                  _ _ _ _ (start_until_pending _ _) Hex) as (w1 & Hu & Hs).
      eapply step_raises; eassumption.
Qed.

Lemma replications_loop_raised fuel num_agents rate rs acc g e g' :
  replications_loop fuel num_agents rate rs acc g = (Raise e, g') ->
  exists r g0, r ∈ rs /\ replication fuel num_agents rate r g0 = (Raise e, g').
Proof.
  revert acc g. induction rs as [|r rs IH]; intros acc g H; simpl in H;
    [ discriminate | ].
  destruct (replication fuel num_agents rate r g) as [o g1] eqn:Hr.
  destruct o as [res|e1|]; try discriminate.
  - destruct (IH _ _ H) as (r' & g0 & Hin & Hr').
    exists r', g0. split; [ right; exact Hin | exact Hr' ].
  - simplify_eq. exists r, g. split; [ left | exact Hr ].
Qed.

Lemma column_total key all_results :
  Forall (fun res : gmap string Q => is_Some (res !! key)) all_results ->
  exists vals, column key all_results = inr vals.
Proof.
  induction 1 as [|res rest [v Hv] _ [vals IH]]; simpl.
  - eexists. reflexivity.
  - rewrite Hv, IH. eexists. reflexivity.
Qed.

Lemma aggregate_total keys all_results agg :
  all_results <> [] ->
  (forall key, key ∈ keys ->
     Forall (fun res : gmap string Q => is_Some (res !! key)) all_results) ->
  exists agg', aggregate sqrt keys all_results agg = inr agg'.
Proof.
  intros Hne. revert agg. induction keys as [|key keys IH]; intros agg Hkeys.
  - eexists. reflexivity.
  - destruct (column_total key all_results) as [vals Hvals];
      [ apply Hkeys; left | ].
    assert (vals <> []) as Hv.
    { intros ->. apply column_length in Hvals. destruct all_results; [ congruence | ].
      discriminate. }
    change (aggregate sqrt (key :: keys) all_results agg) with
      (vals ← column key all_results;
       m ← mean vals;
       sd ← pstdev sqrt vals;
       aggregate sqrt keys all_results
         (<[key +:+ "_stdev" := sd]> (<[key +:+ "_mean" := m]> agg))).
    rewrite Hvals. unfold mbind, exn_bind.
    destruct vals as [|v vals]; [ congruence | ].
    unfold mean, pstdev. apply IH.
    intros k Hk. apply Hkeys. right. exact Hk.
Qed.

Lemma metrics_keys num_agents w res :
  metrics num_agents w = inr res ->
  forall key, key ∈ metric_keys -> is_Some (res !! key).
Proof.
  intros Hm key Hkey.
  destruct (metrics_fields _ _ _ Hm) as (aw & ut & aq & _ & _ & _ & H1 & H2 & H3 & H4).
  unfold metric_keys in Hkey. rewrite !elem_of_cons in Hkey.
  destruct Hkey as [->|[->|[->|[->|Hkey]]]]; [ eauto.. | inversion Hkey ].
Qed.

Lemma aggregate_after_loop fuel num_agents rate rs g out g' :
  rs <> [] ->
  replications_loop fuel num_agents rate rs [] g = (Returned out, g') ->
  exists agg, aggregate sqrt metric_keys out ∅ = inr agg.
Proof.
  intros Hrs Hloop.
  destruct (replications_loop_returned _ _ _ _ _ _ _ _ Hloop) as (new & -> & Hnew).
  rewrite app_nil_l. apply aggregate_total.
  - intros ->. apply Forall2_length in Hnew. destruct rs; [ congruence | discriminate ].
  - intros key Hkey. apply Forall_forall. intros res Hres.
    apply list_elem_of_lookup in Hres as [i Hi].
    destruct (Forall2_lookup_r _ _ _ _ _ Hnew Hi) as (r & _ & w & _ & Hm).
    eapply metrics_keys; eassumption.
Qed.

(** In the model, where [rate / 60] is exact: what is behind an exception
    that leaves [run_scenario]. *)
Lemma run_scenario_raised fuel num_agents rate replications g e g' :
  run_scenario sqrt fuel num_agents rate replications g = (Raise e, g') ->
  (replications = 0%nat /\ e = StatisticsError /\ g' = g)
  \/ (replications <> 0%nat
      /\ ((e = ValueError "capacity must be > 0" /\ (num_agents <= 0)%Z)
          \/ ((0 < num_agents)%Z
              /\ ((e = ZeroDivisionError /\ rate == 0)
                  \/ (e = ValueError "Negative delay"
                      /\ exists g0, (rng_exp g0).1 < 0
                                    \/ (rate < 0 /\ 0 < (rng_exp g0).1)))))).
Proof.
  unfold run_scenario. intros H.
  destruct replications as [|n].
  - left. cbv in H. injection H as <- <-. repeat split.
  - right. split; [ discriminate | ].
    destruct (replications_loop fuel num_agents rate (seq 0 (S n)) [] g)
      as [o g1] eqn:Hloop.
    destruct o as [out|e1|]; try discriminate.
    + assert (seq 0 (S n) <> []) as Hne by discriminate.
      destruct (aggregate_after_loop _ _ _ _ _ _ _ Hne Hloop) as [agg Hagg].
      rewrite Hagg in H. discriminate.
    + simplify_eq.
      destruct (replications_loop_raised _ _ _ _ _ _ _ _ Hloop) as (r & g0 & _ & Hr).
      eapply replication_raised. exact Hr.
Qed.

(** The exceptions that can leave [run_scenario] when the rate is between 1
    and 1000000 calls per hour and there are at most 1000000 agents, sizes
    at which no operation on floats underflows or overflows: StatisticsError,
    exactly when the number of replications is not positive ([range] is
    then empty and the generator is not touched); otherwise the ValueError
    of a pool without capacity, when [num_agents <= 0], or the ValueError of
    a negative delay, which takes a negative draw.  No ZeroDivisionError, no
    KeyError and no error of the scheduler leaves it. *)
Theorem run_scenario_exceptions fuel num_agents rate (replications : Z) g e g' :
  (num_agents <= 1000000)%Z -> 1 <= rate -> rate <= 1000000 ->
  run_scenario sqrt fuel num_agents rate (Z.to_nat replications) g = (Raise e, g') ->
  ((replications <= 0)%Z /\ e = StatisticsError /\ g' = g)
  \/ ((0 < replications)%Z
      /\ (((num_agents <= 0)%Z /\ e = ValueError "capacity must be > 0")
          \/ ((0 < num_agents)%Z /\ e = ValueError "Negative delay"
              /\ exists g0, (rng_exp g0).1 < 0))).
Proof.
  intros _ Hrate _ H.
  destruct (run_scenario_raised _ _ _ _ _ _ _ H)
    as [(Hz & He & Hg)|(Hnz & [(He & Hle)|(Hna & [(_ & Hr)|(He & g0 & [Hd|[Hr _]])])])].
  - left. split; [ lia | split; assumption ].
  - right. split; [ lia | ]. left. split; assumption.
  - lra.
  - right. split; [ lia | ]. right. split; [ exact Hna | ]. split; [ exact He | ].
    exists g0. exact Hd.
  - lra.
Qed.

(** With between 1 and 1000000 agents, a rate between 1 and 1000000 calls
    per hour, draws that are not negative and at least one replication, no
    exception leaves [run_scenario]. *)
Theorem valid_parameters_never_raise fuel num_agents rate (replications : Z) g :
  (0 < num_agents)%Z -> (num_agents <= 1000000)%Z ->
  1 <= rate -> rate <= 1000000 ->
  (forall g0, 0 <= (rng_exp g0).1) ->
  (0 < replications)%Z ->
  forall e g',
    run_scenario sqrt fuel num_agents rate (Z.to_nat replications) g <> (Raise e, g').
Proof.
  intros Hna _ Hrate _ Hdraws Hreps e g' H.
  destruct (run_scenario_raised _ _ _ _ _ _ _ H)
    as [(Hz & _)|(_ & [(_ & Hle)|(_ & [(_ & Hr)|(_ & g0 & [Hd|[Hr _]])])])].
  - lia.
  - lia.
  - lra.
  - specialize (Hdraws g0). lra.
  - lra.
Qed.

End ScenarioExceptions.

Lemma valid_parameters_never_raise_witness :
  (0 < 1)%Z /\ 1 <= 10 /\ (0 < 2)%Z
  /\ @run_scenario busy_source (fun x => x) 100 1 10 (Z.to_nat 2) (rng_seed 0)
     <> (Raise (ValueError "Negative delay"), rng_seed 0).
Proof.
  split; [ reflexivity | ]. split; [ vm_compute; discriminate | ].
  split; [ reflexivity | ].
  apply (@valid_parameters_never_raise busy_source (fun x => x) 100 1 10 2 (rng_seed 0)).
  - reflexivity.
  - vm_compute. discriminate.
  - vm_compute. discriminate.
  - vm_compute. discriminate.
  - intros g0. apply Qlt_le_weak. apply busy_draws_positive.
  - reflexivity.
Defined.

Lemma run_scenario_exceptions_witness :
  ((30 <= 0)%Z /\ ValueError "capacity must be > 0" = StatisticsError
   /\ @rng_seed slow_source (RANDOM_SEED + 0) = @rng_seed slow_source 0)
  \/ ((0 < 30)%Z
      /\ (((0 <= 0)%Z
           /\ ValueError "capacity must be > 0" = ValueError "capacity must be > 0")
          \/ ((0 < 0)%Z
              /\ ValueError "capacity must be > 0" = ValueError "Negative delay"
              /\ exists g0 : @rng slow_source, (rng_exp g0).1 < 0))).
Proof.
  apply (@run_scenario_exceptions slow_source (fun x => x) 100 0 10 30 (rng_seed 0)
           (ValueError "capacity must be > 0") (rng_seed (RANDOM_SEED + 0))).
  - vm_compute. discriminate.
  - vm_compute. discriminate.
  - vm_compute. discriminate.
  - reflexivity.
Defined.

(** ** No replication *)

Section Returns.
Context {RS : RandomSource}.
Variable sqrt : Q -> Q.

(** Without replications the aggregation has no data and
    [statistics.mean] raises, whatever the other arguments; the generator is
    left as it was. *)
Theorem no_replications_raise_statistics_error fuel num_agents rate g :
  run_scenario sqrt fuel num_agents rate 0 g = (Raise StatisticsError, g).
Proof. reflexivity. Qed.

End Returns.


(** ** Relations between the reported numbers *)

Section Reports.
Context {RS : RandomSource}.
Variable sqrt : Q -> Q.


Lemma aggregate_explicit all_results agg :
  aggregate sqrt metric_keys all_results ∅ = inr agg ->
  exists m1 s1 m2 s2 m3 s3 m4 s4,
    agg = <["avg_queue_len_stdev" := s4]> (<["avg_queue_len_mean" := m4]>
          (<["num_served_stdev" := s3]> (<["num_served_mean" := m3]>
          (<["utilization_stdev" := s2]> (<["utilization_mean" := m2]>
          (<["avg_wait_stdev" := s1]> (<["avg_wait_mean" := m1]> ∅))))))).
Proof.
  intros Hagg. unfold metric_keys in Hagg.
  apply aggregate_cons in Hagg as (v1 & _ & _ & Hagg).
  apply aggregate_cons in Hagg as (v2 & _ & _ & Hagg).
  apply aggregate_cons in Hagg as (v3 & _ & _ & Hagg).
  apply aggregate_cons in Hagg as (v4 & _ & _ & Hagg).
  change (aggregate sqrt [] all_results ?a) with (@inr exn _ a) in Hagg.
  injection Hagg as <-. do 8 eexists. reflexivity.
Qed.

Lemma run_scenario_explicit fuel num_agents rate replications g agg g' :
  run_scenario sqrt fuel num_agents rate replications g = (Returned agg, g') ->
  exists m1 s1 m2 s2 m3 s3 m4 s4,
    agg = <["avg_queue_len_stdev" := s4]> (<["avg_queue_len_mean" := m4]>
          (<["num_served_stdev" := s3]> (<["num_served_mean" := m3]>
          (<["utilization_stdev" := s2]> (<["utilization_mean" := m2]>
          (<["avg_wait_stdev" := s1]> (<["avg_wait_mean" := m1]> ∅))))))).
Proof.
  unfold run_scenario. intros H.
  destruct (replications_loop _ _ _ _ _ _) as [o g1]. destruct o; try discriminate.
  destruct (aggregate sqrt metric_keys a ∅) as [|agg0] eqn:Hagg; [ discriminate | ].
  simpl in H. injection H as <- _. eapply aggregate_explicit. exact Hagg.
Qed.

(** The aggregate that [run_scenario] returns has the eight entries
    [key_mean] and [key_stdev] of the four metrics, and no other. *)
Theorem aggregate_has_eight_entries fuel num_agents rate replications g agg g' :
  run_scenario sqrt fuel num_agents rate replications g = (Returned agg, g') ->
  forall key, is_Some (agg !! key) <-> key ∈ aggregate_keys.
Proof.
  intros H key.
  destruct (run_scenario_explicit _ _ _ _ _ _ _ H)
    as (m1 & s1 & m2 & s2 & m3 & s3 & m4 & s4 & ->).
  rewrite <- elem_of_dom, !dom_insert_L, dom_empty_L.
  change ({["avg_queue_len_stdev"]} ∪ ({["avg_queue_len_mean"]}
          ∪ ({["num_served_stdev"]} ∪ ({["num_served_mean"]}
          ∪ ({["utilization_stdev"]} ∪ ({["utilization_mean"]}
          ∪ ({["avg_wait_stdev"]} ∪ ({["avg_wait_mean"]} ∪ ∅))))))) : gset string)
    with (list_to_set (C := gset string) (reverse aggregate_keys)).
  rewrite elem_of_list_to_set, elem_of_reverse. reflexivity.
Qed.

Lemma foldl_Qplus_bounds a b xs acc :
  Forall (fun x => a <= x /\ x <= b) xs ->
  acc + py_len xs * a <= foldl Qplus acc xs
  /\ foldl Qplus acc xs <= acc + py_len xs * b.
Proof.
  unfold py_len. intros H. revert acc.
  induction H as [|x xs [Hxa Hxb] _ IH]; intros acc.
  - simpl. change (inject_Z (Z.of_nat 0)) with 0. lra.
  - change (foldl Qplus acc (x :: xs)) with (foldl Qplus (acc + x) xs).
    destruct (IH (acc + x)) as [IH1 IH2].
    rewrite length_cons, Nat2Z.inj_succ. unfold Z.succ. rewrite inject_Z_plus.
    change (inject_Z 1) with 1. lra.
Qed.

Lemma mean_bounds a b xs :
  xs <> [] -> Forall (fun x => a <= x /\ x <= b) xs ->
  a <= py_sum xs / py_len xs /\ py_sum xs / py_len xs <= b.
Proof.
  intros Hne H.
  assert (0 < py_len xs) as Hlen.
  { unfold py_len. rewrite <- (Zlt_Qlt 0). destruct xs; [ congruence | simpl; lia ]. }
  destruct (foldl_Qplus_bounds a b xs 0 H) as [H1 H2]. fold (py_sum xs) in H1, H2.
  split.
  - apply Qle_shift_div_l; [ exact Hlen | lra ].
  - apply Qle_shift_div_r; [ exact Hlen | lra ].
Qed.

Lemma column_Forall (P : Q -> Prop) key all_results vals :
  column key all_results = inr vals ->
  Forall (fun res : gmap string Q => forall v, res !! key = Some v -> P v) all_results ->
  Forall P vals.
Proof.
  revert vals. induction all_results as [|res rest IH]; intros vals Hc Hall; simpl in Hc.
  - simplify_eq. constructor.
  - apply Forall_cons_1 in Hall as [Hres Hall].
    destruct (res !! key) as [v|] eqn:Hv; [ | discriminate ].
    destruct (column key rest) as [|vs]; [ discriminate | ].
    simpl in Hc. simplify_eq. constructor; [ apply Hres; reflexivity | by apply IH ].
Qed.

Lemma replications_loop_positive fuel num_agents rate r rs acc g out g' :
  replications_loop fuel num_agents rate (r :: rs) acc g = (Returned out, g') ->
  (0 < num_agents)%Z.
Proof.
  simpl. intros H.
  destruct (replication fuel num_agents rate r g) as [o g1] eqn:Hr.
  destruct o; try discriminate.
  by destruct (replication_returned _ _ _ _ _ _ _ Hr) as [Hna _].
Qed.

(** The mean utilization that [run_scenario] reports lies between 0 and
    1. *)
Theorem utilization_mean_between_0_and_1 fuel num_agents rate replications g agg g' :
  run_scenario sqrt fuel num_agents rate replications g = (Returned agg, g') ->
  exists u, agg !! "utilization_mean" = Some u /\ 0 <= u /\ u <= 1.
Proof.
  unfold run_scenario. intros H.
  destruct (replications_loop fuel num_agents rate (seq 0 replications) [] g)
    as [o g1] eqn:Hloop.
  destruct o as [all_results| |]; try discriminate.
  destruct (aggregate sqrt metric_keys all_results ∅) as [|agg0] eqn:Hagg;
    [ discriminate | ].
  assert (agg0 = agg) as -> by (unfold of_result in H; congruence). clear H.
  destruct replications as [|n].
  { simpl in Hloop. injection Hloop as <- <-. vm_compute in Hagg. discriminate. }
  pose proof (replications_loop_positive _ _ _ _ _ _ _ _ _ Hloop) as Hna.
  destruct (replications_loop_returned _ _ _ _ _ _ _ _ Hloop) as (new & Heq & Hnew).
  rewrite app_nil_l in Heq. subst all_results.
  unfold metric_keys in Hagg.
  apply aggregate_cons in Hagg as (v1 & _ & _ & Hagg).
  apply aggregate_cons in Hagg as (v2 & Hc2 & Hne2 & Hagg).
  apply aggregate_cons in Hagg as (v3 & _ & _ & Hagg).
  apply aggregate_cons in Hagg as (v4 & _ & _ & Hagg).
  change (aggregate sqrt [] new ?a) with (@inr exn _ a) in Hagg.
  injection Hagg as <-.
  exists (py_sum v2 / py_len v2). split; [ vm_compute; reflexivity | ].
  apply mean_bounds; [ exact Hne2 | ].
  apply (column_Forall _ _ _ _ Hc2).
  apply Forall_forall. intros res Hres v Hv.
  apply list_elem_of_lookup in Hres as [i Hi].
  destruct (Forall2_lookup_r _ _ _ _ _ Hnew Hi) as (r & _ & w & Hex & Hm).
  destruct (metrics_utilization_bounded _ _ _ _ _ _ Hna Hex Hm) as (u & Hu & Hb).
  rewrite Hu in Hv. injection Hv as <-. exact Hb.
Qed.

(** The average wait that a replication reports lies between 0 and the
    480 minutes of the horizon, and its approximate queue length is not
    negative: every recorded wait is the time between an arrival and a
    grant that were both processed before the horizon. *)
Theorem avg_wait_between_0_and_horizon fuel num_agents rate r g res g' :
  replication fuel num_agents rate r g = (Returned res, g') ->
  exists a q,
    res !! "avg_wait" = Some a /\ res !! "avg_queue_len" = Some q
    /\ 0 <= a /\ a <= horizon /\ 0 <= q.
Proof.
  intros H. destruct (replication_returned _ _ _ _ _ _ _ H) as (_ & w & Hex & Hm & _).
  destruct (metrics_fields _ _ _ Hm)
    as (aw & ut & aq & Haw & _ & Haq & Hr1 & _ & _ & Hr4).
  exists aw, aq. split; [ exact Hr1 | ]. split; [ exact Hr4 | ].
  destruct (recorded_times_nonneg rate num_agents
              (rng_seed (RANDOM_SEED + Z.of_nat r)) fuel) as [Hnn _].
  destruct (exec_before_horizon rate num_agents
              (rng_seed (RANDOM_SEED + Z.of_nat r)) fuel) as (_ & _ & Hlt & _).
  rewrite Hex in Hnn, Hlt. simpl in Hnn, Hlt.
  unfold compute_avg_wait, compute_avg_queue_len, mean, py_div in *.
  destruct (wait_times w) as [|x xs] eqn:Hwt.
  - simplify_eq. vm_compute. split_and!; discriminate.
  - simpl in Haq. simplify_eq.
    assert (Forall (fun y => 0 <= y /\ y <= horizon) (x :: xs)) as Hall.
    { apply Forall_forall. intros y Hy. rewrite Forall_forall in Hnn, Hlt.
      specialize (Hnn y Hy). specialize (Hlt y Hy). simpl in Hlt. lra. }
    destruct (mean_bounds 0 horizon (x :: xs) ltac:(discriminate) Hall) as [Hlo Hhi].
    split; [ exact Hlo | ]. split; [ exact Hhi | ].
    assert (0 <= py_sum (x :: xs)) as Hs.
    { apply foldl_Qplus_nonneg; [ lra | exact Hnn ]. }
    apply Qle_shift_div_l; [ reflexivity | lra ].
Qed.

End Reports.

Lemma avg_wait_between_0_and_horizon_witness :
  let out := @replication busy_source 100 1 10 0 (rng_seed 0) in
  let res := match out.1 with Returned res => res | _ => ∅ end in
  exists a q,
    res !! "avg_wait" = Some a /\ res !! "avg_queue_len" = Some q
    /\ 0 <= a /\ a <= horizon /\ 0 <= q.
Proof.
  intros out res.
  apply (@avg_wait_between_0_and_horizon busy_source 100 1 10 0 (rng_seed 0) res out.2).
  vm_compute. reflexivity.
Defined.


Lemma aggregate_has_eight_entries_witness :
  let out := @run_scenario busy_source (fun x => x) 100 1 10 2 (rng_seed 0) in
  let agg := match out.1 with Returned agg => agg | _ => ∅ end in
  (is_Some (agg !! "num_served_stdev") <-> "num_served_stdev" ∈ aggregate_keys)
  /\ (is_Some (agg !! "num_served") <-> "num_served" ∈ aggregate_keys).
Proof.
  intros out agg.
  split;
    apply (@aggregate_has_eight_entries busy_source (fun x => x) 100 1 10 2
             (rng_seed 0) agg out.2);
    vm_compute; reflexivity.
Defined.

Lemma utilization_mean_between_0_and_1_witness :
  let out := @run_scenario busy_source (fun x => x) 100 2 10 2 (rng_seed 0) in
  let agg := match out.1 with Returned agg => agg | _ => ∅ end in
  exists u, agg !! "utilization_mean" = Some u /\ 0 <= u /\ u <= 1.
Proof.
  intros out agg.
  apply (@utilization_mean_between_0_and_1 busy_source (fun x => x) 100 2 10 2
           (rng_seed 0) agg out.2).
  vm_compute. reflexivity.
Defined.

(** ** The entry point *)

Section MainProperties.
Context {RS : RandomSource}.
Variable sqrt : Q -> Q.

Lemma print_report_total fuel num_agents rate replications g agg g' name :
  run_scenario sqrt fuel num_agents rate replications g = (Returned agg, g') ->
  exists rep,
    print_report name agg = inr rep
    /\ r_name rep = name
    /\ agg !! "avg_wait_mean" = Some (r_avg_wait rep)
    /\ agg !! "avg_wait_stdev" = Some (r_avg_wait_stdev rep)
    /\ agg !! "utilization_mean" = Some (r_utilization rep)
    /\ agg !! "num_served_mean" = Some (r_num_served rep)
    /\ agg !! "avg_queue_len_mean" = Some (r_avg_queue_len rep).
Proof.
  intros H.
  destruct (run_scenario_explicit sqrt _ _ _ _ _ _ _ H)
    as (m1 & s1 & m2 & s2 & m3 & s3 & m4 & s4 & ->).
  eexists. split; [ reflexivity | ]. split_and!; reflexivity.
Qed.

Lemma main_loop_spec fuel todo printed g :
  match main_loop sqrt fuel todo printed g with
  | (out, Returned _, _) =>
      exists new, out = printed ++ new /\ Forall2 (reported sqrt fuel) todo new
  | (_, Raise e, _) =>
      exists sc g0 g1, sc ∈ todo
        /\ run_scenario sqrt fuel sc.2.1 sc.2.2 default_replications g0 = (Raise e, g1)
  | (_, OutOfFuel, _) => True
  end.
Proof.
  revert printed g. induction todo as [|[name [agents rate]] todo IH]; intros printed g.
  - simpl. exists []. split; [ by rewrite app_nil_r | constructor ].
  - simpl.
    destruct (run_scenario sqrt fuel agents rate default_replications g)
      as [o g1] eqn:Hrun.
    destruct o as [agg|e|]; [ | | exact I ].
    + destruct (print_report_total _ _ _ _ _ _ _ name Hrun) as (rep & Hrep & Hfields).
      rewrite Hrep. specialize (IH (printed ++ [rep]) g1).
      destruct (main_loop sqrt fuel todo (printed ++ [rep]) g1) as [[out o] g2].
      destruct o as [[]|e|]; [ | | exact I ].
      * destruct IH as (new & -> & Hnew). exists (rep :: new).
        split; [ by rewrite <- app_assoc | ].
        constructor; [ | exact Hnew ]. exists agg, g, g1. split; assumption.
      * destruct IH as (sc & g0 & g3 & Hin & Hr). exists sc, g0, g3.
        split; [ right; exact Hin | exact Hr ].
    + exists (name, (agents, rate)), g, g1. split; [ left | exact Hrun ].
Qed.

(** The entry point can only fail on a negative draw: the three scenarios
    have agents and positive rates, so that the only exception that can
    leave it is the ValueError of a negative delay; in particular no key
    that the report reads is missing from an aggregate. *)
Theorem main_exceptions fuel g printed e g' :
  main sqrt fuel g = (printed, Raise e, g') ->
  e = ValueError "Negative delay" /\ exists g0, (rng_exp g0).1 < 0.
Proof.
  unfold main. intros H.
  pose proof (main_loop_spec fuel scenarios [] g) as Hspec. rewrite H in Hspec.
  destruct Hspec as (sc & g0 & g1 & Hin & Hr).
  destruct (run_scenario_raised sqrt _ _ _ _ _ _ _ Hr)
    as [(Hz & _)|(_ & [(_ & Hle)|(_ & [(_ & Hrate)|(-> & g2 & [Hd|[Hrate _]])])])].
  - discriminate Hz.
  - unfold scenarios in Hin. rewrite !elem_of_cons in Hin.
    destruct Hin as [->|[->|[->|Hin]]]; [ simpl in Hle; lia.. | inversion Hin ].
  - unfold scenarios in Hin. rewrite !elem_of_cons in Hin.
    destruct Hin as [->|[->|[->|Hin]]];
      [ simpl in Hrate; vm_compute in Hrate; discriminate.. | inversion Hin ].
  - split; [ reflexivity | exists g2; exact Hd ].
  - unfold scenarios in Hin. rewrite !elem_of_cons in Hin.
    destruct Hin as [->|[->|[->|Hin]]];
      [ simpl in Hrate; vm_compute in Hrate; discriminate.. | inversion Hin ].
Qed.

(** When the entry point completes it has run the three scenarios in the
    order of the dictionary, each one with the default number of
    replications, and has printed for each one its name and five entries of
    the aggregate of that scenario. *)
Theorem main_reports_each_scenario fuel g reports g' :
  main sqrt fuel g = (reports, Returned tt, g') ->
  Forall2 (reported sqrt fuel) scenarios reports.
Proof.
  intros H. pose proof (main_loop_spec fuel scenarios [] g) as Hspec.
  unfold main in H. rewrite H in Hspec.
  destruct Hspec as (new & Heq & Hnew). rewrite app_nil_l in Heq. subst. exact Hnew.
Qed.

End MainProperties.

Lemma main_exceptions_witness :
  ValueError "Negative delay" = ValueError "Negative delay"
  /\ exists g0 : @rng negative_source, (rng_exp g0).1 < 0.
Proof.
  pose (out := @main negative_source (fun x => x) 5 (rng_seed 0)).
  apply (@main_exceptions negative_source (fun x => x) 5 (rng_seed 0)
           out.1.1 (ValueError "Negative delay") out.2).
  vm_compute. reflexivity.
Defined.

Lemma main_reports_each_scenario_witness :
  let out := @main slow_source (fun x => x) 10 (rng_seed 0) in
  Forall2 (@reported slow_source (fun x => x) 10) scenarios out.1.1.
Proof.
  intros out.
  apply (@main_reports_each_scenario slow_source (fun x => x) 10 (rng_seed 0)
           out.1.1 out.2).
  vm_compute. reflexivity.
Defined.
